(** * generate_passphrase: wordlist parser and passphrase sampler

    A shallow embedding of [generate_passphrase.py] and the properties of
    its wordlist parser ([WordlistFormat.parse]), of [Word] and of the
    command [generate_passphrase].

    Python strings are sequences of Unicode code points: a character is a
    code point ([N]) and a string is a list of them.  The classification of
    the ASCII range is written out; the classification of the other code
    points is the Unicode database of the interpreter, which the
    development takes as a parameter ([UnicodeData]). *)

From Stdlib Require Import String Ascii.
From Stdlib Require Import List NArith ZArith Bool Arith Lia.
Import ListNotations.

Set Implicit Arguments.

(** ** Characters and strings *)

Definition char := N.
Bind Scope N_scope with char.
Definition str := list char.

(** Code points of an ASCII literal of the development. *)
Fixpoint lit (s : string) : str :=
  match s with
  | EmptyString => []
  | String a s' => N_of_ascii a :: lit s'
  end.

Definition char_eqb (a b : char) : bool := N.eqb a b.

Fixpoint str_eqb (a b : str) : bool :=
  match a, b with
  | [], [] => true
  | x :: a', y :: b' => char_eqb x y && str_eqb a' b'
  | _, _ => false
  end.

(** The Unicode database outside the ASCII range, as the interpreter's
    [str.isspace], [str.isdecimal], [str.isalnum] and [str.isprintable]
    see it.  Alphanumeric code points are letters and numbers, all of
    them printable. *)
Class UnicodeData := {
  uni_isspace : char -> bool;
  uni_isdecimal : char -> bool;
  uni_isalnum : char -> bool;
  uni_isprintable : char -> bool;
  uni_alnum_printable :
    forall c, uni_isalnum c = true -> uni_isprintable c = true
}.

Definition in_range (lo hi c : char) : bool := N.leb lo c && N.leb c hi.

Definition is_ascii (c : char) : bool := N.ltb c 128%N.

Section Classes.
Context {U : UnicodeData}.

(** [Py_UNICODE_ISSPACE]: TAB, LF, VT, FF, CR, FS, GS, RS, US and space
    in the ASCII range. *)
Definition isspace (c : char) : bool :=
  if is_ascii c then in_range 9 13 c || in_range 28 32 c
  else uni_isspace c.

(** [Py_UNICODE_ISDECIMAL]. *)
Definition isdecimal (c : char) : bool :=
  if is_ascii c then in_range 48 57 c
  else uni_isdecimal c.

(** [Py_UNICODE_ISALNUM]. *)
Definition isalnum (c : char) : bool :=
  if is_ascii c then in_range 48 57 c || in_range 65 90 c || in_range 97 122 c
  else uni_isalnum c.

(** [Py_UNICODE_ISPRINTABLE]. *)
Definition isprintable (c : char) : bool :=
  if is_ascii c then in_range 32 126 c
  else uni_isprintable c.

(** ** [str.strip()] *)

Fixpoint lstrip (s : str) : str :=
  match s with
  | [] => []
  | c :: s' => if isspace c then lstrip s' else s
  end.

Definition rstrip (s : str) : str := rev (lstrip (rev s)).

Definition strip (s : str) : str := rstrip (lstrip s).

(** ** The fragment of [re] the program uses *)

(** Character sets: [\w], [\d], [\s], [\S], a literal, and a bracketed
    union. *)
Inductive charset :=
| CsWord
| CsDigit
| CsSpace
| CsNotSpace
| CsLit (c : char)
| CsUnion (a b : charset).

Fixpoint cs_mem (cs : charset) (c : char) : bool :=
  match cs with
  | CsWord => isalnum c || char_eqb c 95
  | CsDigit => isdecimal c
  | CsSpace => isspace c
  | CsNotSpace => negb (isspace c)
  | CsLit l => char_eqb c l
  | CsUnion a b => cs_mem a c || cs_mem b c
  end.

(** Patterns: one character of a set, its greedy repetitions [*] and
    [+], concatenation, and a named group [(?P<name>...)]. *)
Inductive regex :=
| Rset (cs : charset)
| Rstar (cs : charset)
| Rplus (cs : charset)
| Rseq (r1 r2 : regex)
| Rgroup (name : string) (r : regex).

(** A match object: the named groups that took part in the match, the
    most recent binding first. *)
Definition groups := list (string * str).

Fixpoint group (m : groups) (name : string) : option str :=
  match m with
  | [] => None
  | (n, v) :: m' => if String.eqb n name then Some v else group m' name
  end.

(** The backtracking matcher, in continuation-passing style: [k] is
    the rest of the pattern, applied to the unread input.  A greedy
    repetition first tries to take one more character and falls back
    to the continuation when that fails. *)
Fixpoint rstar (cs : charset) (s : str) (g : groups)
    (k : str -> groups -> option groups) : option groups :=
  match s with
  | [] => k [] g
  | c :: s' =>
      if cs_mem cs c then
        match rstar cs s' g k with
        | Some m => Some m
        | None => k s g
        end
      else k s g
  end.

Fixpoint rmatch (r : regex) (s : str) (g : groups)
    (k : str -> groups -> option groups) : option groups :=
  match r with
  | Rset cs =>
      match s with
      | c :: s' => if cs_mem cs c then k s' g else None
      | [] => None
      end
  | Rstar cs => rstar cs s g k
  | Rplus cs =>
      match s with
      | c :: s' => if cs_mem cs c then rstar cs s' g k else None
      | [] => None
      end
  | Rseq r1 r2 => rmatch r1 s g (fun s' g' => rmatch r2 s' g' k)
  | Rgroup name r1 =>
      rmatch r1 s g
        (fun s' g' =>
           k s' ((name, firstn (length s - length s') s) :: g'))
  end.

Definition at_end (s : str) (g : groups) : option groups :=
  match s with
  | [] => Some g
  | _ :: _ => None
  end.

(** [Pattern.fullmatch]: the whole string has to be consumed. *)
Definition fullmatch (r : regex) (s : str) : option groups :=
  rmatch r s [] at_end.

(** [VALID_WORD_PATTERN]: the group [word] of one or more characters
    of the set of [\w] and the hyphen. *)
Definition VALID_WORD_PATTERN : regex :=
  Rgroup "word" (Rplus (CsUnion CsWord (CsLit 45))).

(** ** Formatting *)

Fixpoint uint_digits (d : Decimal.uint) : str :=
  match d with
  | Decimal.Nil => []
  | Decimal.D0 d' => 48%N :: uint_digits d'
  | Decimal.D1 d' => 49%N :: uint_digits d'
  | Decimal.D2 d' => 50%N :: uint_digits d'
  | Decimal.D3 d' => 51%N :: uint_digits d'
  | Decimal.D4 d' => 52%N :: uint_digits d'
  | Decimal.D5 d' => 53%N :: uint_digits d'
  | Decimal.D6 d' => 54%N :: uint_digits d'
  | Decimal.D7 d' => 55%N :: uint_digits d'
  | Decimal.D8 d' => 56%N :: uint_digits d'
  | Decimal.D9 d' => 57%N :: uint_digits d'
  end.

(** [str(n)] for a non-negative integer. *)
Definition str_of_nat (n : nat) : str := uint_digits (Nat.to_uint n).

(** The f-string conversion [{i:02}]: at least two digits, padded with
    zeros on the left. *)
Definition format_02 (i : nat) : str :=
  let d := str_of_nat i in
  repeat 48%N (2 - length d) ++ d.

Definition hex_digit (n : N) : char :=
  if N.ltb n 10 then (48 + n)%N else (87 + n)%N.

Fixpoint hex_pad (width : nat) (n : N) : str :=
  match width with
  | O => []
  | S w => hex_pad w (n / 16)%N ++ [hex_digit (n mod 16)%N]
  end.

Definition has_char (c : char) (s : str) : bool := existsb (char_eqb c) s.

(** The quote [repr] puts around a string: a double quote when the
    string has a single quote and no double quote, a single quote
    otherwise. *)
Definition repr_quote (s : str) : char :=
  if has_char 39 s && negb (has_char 34 s) then 34%N else 39%N.

Definition repr_char (quote c : char) : str :=
  if char_eqb c quote || char_eqb c 92 then [92%N; c]
  else if char_eqb c 9 then lit "\t"
  else if char_eqb c 10 then lit "\n"
  else if char_eqb c 13 then lit "\r"
  else if N.ltb c 32 || char_eqb c 127 then lit "\x" ++ hex_pad 2 c
  else if N.ltb c 127 then [c]
  else if isprintable c then [c]
  else if N.leb c 255 then lit "\x" ++ hex_pad 2 c
  else if N.leb c 65535 then lit "\u" ++ hex_pad 4 c
  else lit "\U" ++ hex_pad 8 c.

(** [repr(s)], the [!r] conversion of an f-string. *)
Definition repr (s : str) : str :=
  let q := repr_quote s in
  [q] ++ flat_map (repr_char q) s ++ [q].

(** [sep.join(items)]. *)
Fixpoint join (sep : str) (items : list str) : str :=
  match items with
  | [] => []
  | [x] => x
  | x :: rest => x ++ sep ++ join sep rest
  end.

End Classes.

(** ** Exceptions and formats *)

Definition path := str.

Inductive WordlistFormat :=
| PLAIN
| DICELIST_EFF.

(** [WordlistFormat.value]. *)
Definition value (f : WordlistFormat) : str :=
  match f with
  | PLAIN => lit "plain"
  | DICELIST_EFF => lit "dicelist-eff"
  end.

(** Why click rejected the value of an option. *)
Inductive usage :=
| MissingOption
| InvalidChoice
| DoesNotExist
| IsADirectory
| NotReadable
| OutOfRange.

Inductive Exn :=
| UsageError (option_name : string) (why : usage)
| ClickException (message : str)
| InvalidWordlist (reason : str) (lineno : nat) (file_path : path)
    (file_format : WordlistFormat)
| ValueError (message : str)
| UnicodeDecodeError
| IndexError
| AssertionError
| OSError (errno : string) (file_path : path).

Inductive outcome (A : Type) :=
| Ok (a : A)
| Raise (e : Exn).
Arguments Ok {A} a.
Arguments Raise {A} e.

Record Word := mkWord { word : str; index : nat }.

Section Parser.
Context {U : UnicodeData}.

(** [InvalidWordlist.__init__]: the message handed to
    [click.ClickException]. *)
Definition InvalidWordlist_message (reason : str) (lineno : nat)
    (file_path : path) (file_format : WordlistFormat) : str :=
  lit "Invalid worldist not in " ++ value file_format ++ lit " format: "
    ++ reason ++ lit " (" ++ file_path ++ lit ":" ++ str_of_nat lineno
    ++ lit ")".

Definition InvalidWordlist_new (reason : str) (lineno : nat)
    (file_path : path) (file_format : WordlistFormat) : Exn :=
  if Nat.leb 1 lineno
  then InvalidWordlist reason lineno file_path file_format
  else AssertionError.

(** [WordlistFormat._line_pattern]: [VALID_WORD_PATTERN] for [plain];
    for [dicelist-eff] one or more [\d], any number of [\s], then the
    group [word] of any number of [\S]. *)
Definition _line_pattern (self : WordlistFormat) : regex :=
  match self with
  | PLAIN => VALID_WORD_PATTERN
  | DICELIST_EFF =>
      Rseq (Rplus CsDigit)
        (Rseq (Rstar CsSpace) (Rgroup "word" (Rstar CsNotSpace)))
  end.

(** [Word(index=..., word=...)]: the dataclass constructor followed by
    [__post_init__]. *)
Definition Word_new (index : nat) (word : str) : outcome Word :=
  match fullmatch VALID_WORD_PATTERN word with
  | None => Raise (ValueError (lit "Invalid word: " ++ repr word))
  | Some _ => Ok (mkWord word index)
  end.

(** [Word.describe]. *)
Definition describe (self : Word) : str :=
  lit "index " ++ str_of_nat (index self) ++ lit ": " ++ repr (word self).

(** The loop of [WordlistFormat.parse] over the lines the file yields:
    [lineno] is the number of the first line of [lines], [result] the
    words accepted so far. *)
Fixpoint parse_lines (self : WordlistFormat) (file_path : path)
    (lines : list str) (lineno : nat) (result : list Word)
    : outcome (list Word) :=
  match lines with
  | [] => Ok result
  | line :: rest =>
      let bad_line reason :=
        Raise (InvalidWordlist_new reason lineno file_path self) in
      let line := strip line in
      match line with
      | [] => parse_lines self file_path rest (S lineno) result
      | _ :: _ =>
          match fullmatch (_line_pattern self) line with
          | None => bad_line (lit "Not a valid line")
          | Some m =>
              match group m "word" with
              | None => Raise AssertionError
              | Some word =>
                  match fullmatch VALID_WORD_PATTERN word with
                  | None => bad_line (lit "Invalid word " ++ repr word)
                  | Some _ =>
                      match Word_new (length result) word with
                      | Raise e => Raise e
                      | Ok w =>
                          parse_lines self file_path rest (S lineno)
                            (result ++ [w])
                      end
                  end
              end
          end
      end
  end.

(** [WordlistFormat.parse(file, file_path=...)]; [file] is the sequence
    of lines the text stream yields. *)
Definition parse (self : WordlistFormat) (file : list str)
    (file_path : path) : outcome (list Word) :=
  parse_lines self file_path file 1 [].

(** A text stream as the loop of [parse] sees it: the lines it yields,
    and how it ends, at the end of the file or with the exception that
    reading raised ([UnicodeDecodeError] for bytes that do not decode,
    a subclass of [ValueError]). *)
Record stream := mkStream { yielded : list str; ending : option Exn }.

(** [WordlistFormat.parse] on any stream: the loop handles the lines
    the stream yields, and the exception the stream ends with, if any,
    comes out of the loop once they are all accepted.  [parse] is the
    case of a stream that ends at the end of the file. *)
Definition parse_stream (self : WordlistFormat) (file : stream)
    (file_path : path) : outcome (list Word) :=
  match parse self (yielded file) file_path with
  | Raise e => Raise e
  | Ok result =>
      match ending file with
      | None => Ok result
      | Some e => Raise e
      end
  end.

End Parser.

(** ** The command

    The command runs in a world made of the two output streams, the log
    of the files it opened and closed, and the number of random draws
    made so far.  A computation returns the new world and either a value
    or the exception that ended it. *)

Inductive file_event :=
| Opened (p : path)
| Closed (p : path).

Record World := mkWorld {
  stdout : str;
  stderr : str;
  files : list file_event;
  draws : nat
}.

Definition initial_world : World := mkWorld [] [] [] 0.

Definition M (A : Type) : Type := World -> World * outcome A.

Definition ret {A} (a : A) : M A := fun w => (w, Ok a).

Definition raise {A} (e : Exn) : M A := fun w => (w, Raise e).

Definition bind {A B} (c : M A) (k : A -> M B) : M B :=
  fun w =>
    match c w with
    | (w', Ok a) => k a w'
    | (w', Raise e) => (w', Raise e)
    end.

Definition lift {A} (r : outcome A) : M A := fun w => (w, r).

Notation "x <- c ;; k" := (bind c (fun x => k))
  (at level 61, c at next level, right associativity).
Notation "c ;;; k" := (bind c (fun _ => k))
  (at level 61, right associativity).

(** [print(text)] and [print(text, file=sys.stderr)]: the text and a
    newline. *)
Definition print_stdout (text : str) : M unit :=
  fun w => (mkWorld (stdout w ++ text ++ [10%N]) (stderr w) (files w) (draws w),
            Ok tt).

Definition print_stderr (text : str) : M unit :=
  fun w => (mkWorld (stdout w) (stderr w ++ text ++ [10%N]) (files w) (draws w),
            Ok tt).

Definition log_file (e : file_event) : M unit :=
  fun w => (mkWorld (stdout w) (stderr w) (files w ++ [e]) (draws w), Ok tt).

(** The file system: what a path names.  The content of a regular
    file is its text, decoded; a file whose bytes do not all decode is
    an [UndecodableFile], with the lines that are read before the
    decoder fails. *)
Inductive fs_entry :=
| Directory
| RegularFile (readable : bool) (content : str)
| UndecodableFile (readable : bool) (decoded : list str).

Definition filesystem := path -> option fs_entry.

(** Text mode with universal newlines: CR LF and CR are read as LF. *)
Fixpoint translate_newlines (s : str) : str :=
  match s with
  | [] => []
  | c :: r =>
      if char_eqb c 13 then
        10%N :: match r with
                | [] => []
                | d :: r' =>
                    if char_eqb d 10 then translate_newlines r'
                    else translate_newlines r
                end
      else c :: translate_newlines r
  end.

(** The lines a text stream yields, each with its newline; [cur] is the
    line being read, reversed. *)
Fixpoint lines_from (cur : str) (s : str) : list str :=
  match s with
  | [] => match cur with [] => [] | _ :: _ => [rev cur] end
  | c :: r =>
      if char_eqb c 10 then rev (c :: cur) :: lines_from [] r
      else lines_from (c :: cur) r
  end.

Definition readlines (content : str) : list str :=
  lines_from [] (translate_newlines content).

(** What the command line gives for each option: the count is the
    integer given with [--count] or at the prompt. *)
Record Args := mkArgs {
  arg_wordlist_format : option str;
  arg_wordlist : option path;
  arg_count : Z;
  arg_join_char : option str;
  arg_quiet : bool
}.

(** [WordlistFormat(name)]: the member of that value. *)
Definition WordlistFormat_of_value (name : str) : option WordlistFormat :=
  if str_eqb name (value PLAIN) then Some PLAIN
  else if str_eqb name (value DICELIST_EFF) then Some DICELIST_EFF
  else None.

Section Command.
Context {U : UnicodeData}.
Variable fs : filesystem.
(** The system's random source: the raw value of each draw. *)
Variable entropy : nat -> nat.

(** The option types of the decorators, which click applies to the
    command line before it calls the function. *)

(** [click.Choice([fmt.value for fmt in WordlistFormat])], required. *)
Definition convert_wordlist_format (a : option str) : outcome str :=
  match a with
  | None => Raise (UsageError "--wordlist-format" MissingOption)
  | Some name =>
      match WordlistFormat_of_value name with
      | Some _ => Ok name
      | None => Raise (UsageError "--wordlist-format" InvalidChoice)
      end
  end.

(** [click.Path(exists=True, dir_okay=False, readable=True)],
    required. *)
Definition convert_wordlist (a : option path) : outcome path :=
  match a with
  | None => Raise (UsageError "--wordlist" MissingOption)
  | Some p =>
      match fs p with
      | None => Raise (UsageError "--wordlist" DoesNotExist)
      | Some Directory => Raise (UsageError "--wordlist" IsADirectory)
      | Some (RegularFile readable _)
      | Some (UndecodableFile readable _) =>
          if readable then Ok p
          else Raise (UsageError "--wordlist" NotReadable)
      end
  end.

(** [click.IntRange(min=1)]. *)
Definition convert_count (n : Z) : outcome Z :=
  if (1 <=? n)%Z then Ok n
  else Raise (UsageError "--count" OutOfRange).

(** [default=" "]. *)
Definition convert_join_char (a : option str) : str :=
  match a with
  | None => lit " "
  | Some s => s
  end.

(** [open(wordlist_path)]: the text stream of the file.  Nothing is
    read, or decoded, before the stream is iterated. *)
Definition open_file (p : path) : M stream :=
  match fs p with
  | None => raise (OSError "ENOENT" p)
  | Some Directory => raise (OSError "EISDIR" p)
  | Some (RegularFile readable content) =>
      if readable
      then log_file (Opened p) ;;; ret (mkStream (readlines content) None)
      else raise (OSError "EACCES" p)
  | Some (UndecodableFile readable decoded) =>
      if readable
      then log_file (Opened p)
           ;;; ret (mkStream decoded (Some UnicodeDecodeError))
      else raise (OSError "EACCES" p)
  end.

(** [secrets.choice(seq)]. *)
Definition secrets_choice {A} (seq : list A) : M A :=
  fun w =>
    match seq with
    | [] => (w, Raise IndexError)
    | _ :: _ =>
        match nth_error seq (entropy (draws w) mod length seq) with
        | Some x =>
            (mkWorld (stdout w) (stderr w) (files w) (S (draws w)), Ok x)
        | None => (w, Raise IndexError)
        end
    end.

(** The loop [for i in range(word_count)], with [todo] iterations
    left. *)
Fixpoint sample_loop (wordlist : list Word) (quiet : bool) (todo : nat)
    (i : nat) (result_words : list str) : M (list str) :=
  match todo with
  | O => ret result_words
  | S todo' =>
      pick <- secrets_choice wordlist ;;
      (if negb quiet
       then print_stderr (format_02 i ++ lit " picked" ++ lit " "
                            ++ describe pick)
       else ret tt) ;;;
      sample_loop wordlist quiet todo' (S i) (result_words ++ [word pick])
  end.

(** The body of [generate_passphrase]. *)
Definition generate_passphrase (wordlist_format_name : str)
    (wordlist_path : path) (word_count : Z) (quiet : bool)
    (join_char : str) : M unit :=
  if negb (length join_char =? 1) then
    raise (ClickException
             (lit "The join char must be a single character, but got "
                ++ repr join_char))
  else
    match WordlistFormat_of_value wordlist_format_name with
    | None => raise (ValueError (repr wordlist_format_name
                                   ++ lit " is not a valid WordlistFormat"))
    | Some wordlist_format =>
        wordlist_file <- open_file wordlist_path ;;
        let parsed :=
          parse_stream wordlist_format wordlist_file wordlist_path in
        log_file (Closed wordlist_path) ;;;
        wordlist <- lift parsed ;;
        result_words <-
          sample_loop wordlist quiet (Z.to_nat word_count) 0 [] ;;
        (if negb quiet then print_stderr [] else ret tt) ;;;
        if (Z.of_nat (length result_words) =? word_count)%Z
           && (0 <? word_count)%Z
        then print_stdout (join join_char result_words)
        else raise AssertionError
    end.

(** The click command: click converts the options before it calls the
    function and raises the usage error of the first conversion that
    fails.  It converts them in the order of the command line; the
    order here is that of their declaration, the order of a command
    line that gives the options as they are declared.  The order only
    decides which error is reported when click rejects several
    options; that the error is the one of a rejected option
    ([option_rejected]) holds in any order. *)
Definition command (a : Args) : M unit :=
  wordlist_format_name <- lift (convert_wordlist_format (arg_wordlist_format a)) ;;
  wordlist_path <- lift (convert_wordlist (arg_wordlist a)) ;;
  word_count <- lift (convert_count (arg_count a)) ;;
  generate_passphrase wordlist_format_name wordlist_path word_count
    (arg_quiet a) (convert_join_char (arg_join_char a)).

Definition run (a : Args) : World * outcome unit :=
  command a initial_world.

End Command.

(** ** Vocabulary of the statements *)

Section Vocabulary.
Context {U : UnicodeData}.

(** A character of the allowed-word set: [\w] or the hyphen. *)
Definition word_char (c : char) : bool :=
  cs_mem (CsUnion CsWord (CsLit 45)) c.

(** One or more characters, all of the allowed-word set. *)
Definition valid_word (s : str) : bool :=
  match s with
  | [] => false
  | _ :: _ => forallb word_char s
  end.

Definition is_blank (line : str) : bool :=
  match strip line with
  | [] => true
  | _ :: _ => false
  end.

(** The file without its blank lines. *)
Definition remove_blank (lines : list str) : list str :=
  filter (fun l => negb (is_blank l)) lines.

Definition count_blank (lines : list str) : nat :=
  length (filter is_blank lines).

(** What the body of the loop of [parse] does with one line. *)
Inductive line_status :=
| Blank
| Accepted (text : str)
| Rejected (reason : str)
| Unbound.

Definition line_result (self : WordlistFormat) (line : str) : line_status :=
  match strip line with
  | [] => Blank
  | c :: l =>
      match fullmatch (_line_pattern self) (c :: l) with
      | None => Rejected (lit "Not a valid line")
      | Some m =>
          match group m "word" with
          | None => Unbound
          | Some w =>
              match fullmatch VALID_WORD_PATTERN w with
              | None => Rejected (lit "Invalid word " ++ repr w)
              | Some _ => Accepted w
              end
          end
      end
  end.

Definition rejected (self : WordlistFormat) (line : str) : Prop :=
  exists reason, line_result self line = Rejected reason.

(** The line is not blank and its trimmed text does not fully match
    the line pattern of the format. *)
Definition fails_pattern (self : WordlistFormat) (line : str) : Prop :=
  strip line <> [] /\ fullmatch (_line_pattern self) (strip line) = None.

(** The texts of the accepted lines, in file order. *)
Fixpoint accepted_texts (self : WordlistFormat) (lines : list str)
    : list str :=
  match lines with
  | [] => []
  | l :: rest =>
      match line_result self l with
      | Accepted w => w :: accepted_texts self rest
      | _ => accepted_texts self rest
      end
  end.

(** The words of the given texts, numbered from [start]. *)
Fixpoint number_from (start : nat) (texts : list str) : list Word :=
  match texts with
  | [] => []
  | t :: rest => mkWord t start :: number_from (S start) rest
  end.

(** The outcome of [parse] on the file without its blank lines, from
    its outcome on the file: the line number of an error goes down
    by the number of blank lines before that line. *)
Definition renumber (lines : list str) (r : outcome (list Word))
    : outcome (list Word) :=
  match r with
  | Raise (InvalidWordlist reason n p f) =>
      Raise (InvalidWordlist reason
               (n - count_blank (firstn (n - 1) lines)) p f)
  | _ => r
  end.

(** The line written to the diagnostic stream for draw [i]. *)
Definition pick_line (i : nat) (pick : Word) : str :=
  format_02 i ++ lit " picked index " ++ str_of_nat (index pick)
    ++ lit ": '" ++ word pick ++ lit "'".

Fixpoint pick_trace (i : nat) (picks : list Word) : str :=
  match picks with
  | [] => []
  | p :: rest => pick_line i p ++ [10%N] ++ pick_trace (S i) rest
  end.


(** The number of occurrences of a character in a string. *)
Definition count_char (c : char) (s : str) : nat :=
  length (filter (char_eqb c) s).

Variable entropy : nat -> nat.

(** The words drawn by [todo] draws from a list of head [x], the
    first of them being draw number [d] of the random source. *)
Fixpoint drawn (wordlist : list Word) (x : Word) (d todo : nat)
    : list Word :=
  match todo with
  | O => []
  | S t =>
      nth (entropy d mod length wordlist) wordlist x
        :: drawn wordlist x (S d) t
  end.

Variable fs : filesystem.

(** The wordlist a run of the command samples from: the parse of the
    file its options name, when they name a format and a readable
    file that parses. *)
Definition parsed_wordlist (a : Args) : option (list Word) :=
  match arg_wordlist_format a, arg_wordlist a with
  | Some name, Some p =>
      match WordlistFormat_of_value name, fs p with
      | Some fmt, Some (RegularFile true content) =>
          match parse fmt (readlines content) p with
          | Ok wordlist => Some wordlist
          | Raise _ => None
          end
      | _, _ => None
      end
  | _, _ => None
  end.


End Vocabulary.

(** ** A concrete database

    The Unicode database up to the Latin-1 supplement (code points below
    256); the code points above are left unclassified.  The examples of
    this development, whose inputs are ASCII, are evaluated with it. *)

Definition latin1_isspace (c : char) : bool :=
  char_eqb c 133 || char_eqb c 160.

Definition latin1_isalnum (c : char) : bool :=
  char_eqb c 170 || in_range 178 179 c || char_eqb c 181
  || in_range 185 186 c || in_range 188 190 c
  || in_range 192 214 c || in_range 216 246 c || in_range 248 255 c.

Definition latin1_isprintable (c : char) : bool :=
  in_range 161 172 c || in_range 174 255 c.

Lemma latin1_alnum_printable (c : char) :
  latin1_isalnum c = true -> latin1_isprintable c = true.
Proof.
  unfold latin1_isalnum, latin1_isprintable, in_range, char_eqb.
  rewrite !orb_true_iff, !andb_true_iff, !N.eqb_eq, !N.leb_le. lia.
Qed.

#[export] Instance latin1 : UnicodeData := {
  uni_isspace := latin1_isspace;
  uni_isdecimal := fun _ => false;
  uni_isalnum := latin1_isalnum;
  uni_isprintable := latin1_isprintable;
  uni_alnum_printable := latin1_alnum_printable
}.

(** ** Example inputs *)

Definition nl : str := [10%N].

Definition example_fs : filesystem :=
  fun p =>
    if str_eqb p (lit "words.txt") then
      Some (RegularFile true
              (lit "alpha" ++ nl ++ lit "beta" ++ nl ++ lit "gamma" ++ nl))
    else if str_eqb p (lit "blank.txt") then
      Some (RegularFile true (nl ++ lit "  " ++ nl))
    else if str_eqb p (lit "bad.txt") then
      Some (RegularFile true (lit "alpha" ++ nl ++ lit "two words" ++ nl))
    else if str_eqb p (lit "binary.txt") then
      Some (UndecodableFile true [lit "alpha" ++ nl; lit "beta" ++ nl])
    else None.

Definition example_entropy (i : nat) : nat := 2 * i + 1.

Definition example_args (file : string) (count : Z) (join_char : option str)
    (quiet : bool) : Args :=
  mkArgs (Some (lit "plain")) (Some (lit file)) count join_char quiet.

(** ** Vocabulary of the further properties *)

Section FurtherVocabulary.
Context {U : UnicodeData}.

(** The input left once the longest run of characters of a set is read. *)
Fixpoint skip (cs : charset) (s : str) : str :=
  match s with
  | [] => []
  | c :: r => if cs_mem cs c then skip cs r else s
  end.

(** What the dice-list pattern captures in a string: the string has to
    start with a decimal digit; its leading digits, then the whitespace
    after them, are passed over, and what is left is the word, which
    has to be free of whitespace. *)
Definition dicelist_word (s : str) : option str :=
  match s with
  | [] => None
  | c :: r =>
      if isdecimal c then
        let rest := skip CsSpace (skip CsDigit r) in
        if forallb (cs_mem CsNotSpace) rest then Some rest else None
      else None
  end.

(** A decimal digit is not whitespace, as in the Unicode database. *)
Definition digits_not_space : Prop :=
  forall c, isdecimal c = true -> isspace c = false.

(** [padded] is [line] between two runs of whitespace. *)
Definition padding_of (line padded : str) : Prop :=
  exists before after,
    forallb isspace before = true /\ forallb isspace after = true
    /\ padded = before ++ line ++ after.



(** A character of a word is not whitespace, as in the Unicode
    database. *)
Definition word_chars_not_space : Prop :=
  forall c, word_char c = true -> isspace c = false.

(** An entry of a dice list: the roll number, the whitespace after it,
    and the word. *)
Record dice_entry := mkEntry { roll : str; gap : str; entry_word : str }.

Definition entry_text (e : dice_entry) : str :=
  roll e ++ gap e ++ entry_word e.

Definition well_formed_entry (e : dice_entry) : Prop :=
  roll e <> [] /\ forallb isdecimal (roll e) = true
  /\ gap e <> [] /\ forallb isspace (gap e) = true
  /\ valid_word (entry_word e) = true.

End FurtherVocabulary.

(** * Properties *)

Section RegexFacts.
Context {U : UnicodeData}.

(** A repetition followed by a continuation that only accepts the end
    of the input succeeds exactly on the strings of the set. *)
Lemma rstar_end_only cs s g k :
  (forall c s' g', k (c :: s') g' = None) ->
  rstar cs s g k = if forallb (cs_mem cs) s then k [] g else None.
Proof.
  intros Hk. induction s as [|c s IH]; simpl; [reflexivity|].
  destruct (cs_mem cs c); simpl.
  - rewrite IH. destruct (forallb (cs_mem cs) s).
    + destruct (k [] g); [reflexivity | apply Hk].
    + apply Hk.
  - apply Hk.
Qed.

(** Greedy success: when the whole input is in the set and the
    continuation accepts the end, that is the match found. *)
Lemma rstar_all cs s g k m :
  forallb (cs_mem cs) s = true -> k [] g = Some m ->
  rstar cs s g k = Some m.
Proof.
  intros Hs Hk. induction s as [|c s IH]; simpl; [exact Hk|].
  simpl in Hs. apply andb_true_iff in Hs as [Hc Hs].
  rewrite Hc, (IH Hs). reflexivity.
Qed.

(** A successful repetition ends in a successful continuation, with the
    groups it was given. *)
Lemma rstar_some cs s g k m :
  rstar cs s g k = Some m -> exists s', k s' g = Some m.
Proof.
  induction s as [|c s IH]; simpl; intros H.
  - eauto.
  - destruct (cs_mem cs c); [|eauto].
    destruct (rstar cs s g k) eqn:E; [|eauto].
    inversion H; subst. apply IH. reflexivity.
Qed.

Lemma fullmatch_VALID_WORD_PATTERN s :
  fullmatch VALID_WORD_PATTERN s
  = if valid_word s then Some [("word"%string, s)] else None.
Proof.
  unfold fullmatch, VALID_WORD_PATTERN, valid_word.
  destruct s as [|c s]; [reflexivity|].
  cbn [rmatch forallb]. fold (word_char c). unfold word_char at 2.
  destruct (word_char c) eqn:Hc; unfold word_char in Hc; rewrite Hc;
    [|reflexivity].
  rewrite rstar_end_only by (intros; reflexivity).
  cbn [andb]. destruct (forallb _ s); [|reflexivity].
  cbn [at_end length]. rewrite Nat.sub_0_r.
  change (S (length s)) with (length (c :: s)). rewrite firstn_all.
  reflexivity.
Qed.

Lemma valid_word_spec s :
  valid_word s = true <-> s <> [] /\ Forall (fun c => word_char c = true) s.
Proof.
  unfold valid_word. destruct s as [|c s].
  - split; [discriminate | intros [H _]; congruence].
  - rewrite forallb_forall, Forall_forall. split.
    + intros H. split; [discriminate | exact H].
    + intros [_ H]. exact H.
Qed.

(** Every match of a line pattern binds the group [word]. *)
Lemma line_pattern_binds self s m :
  fullmatch (_line_pattern self) s = Some m ->
  exists w, m = [("word"%string, w)].
Proof.
  destruct self.
  - cbn [_line_pattern]. rewrite fullmatch_VALID_WORD_PATTERN.
    destruct (valid_word s); [|discriminate].
    intros H; inversion H; eauto.
  - unfold fullmatch. cbn [_line_pattern rmatch].
    destruct s as [|c s]; [discriminate|].
    destruct (cs_mem CsDigit c); [|discriminate].
    intros H. apply rstar_some in H as [s1 H].
    apply rstar_some in H as [s2 H].
    apply rstar_some in H as [s3 H].
    destruct s3; [|discriminate]. inversion H; eauto.
Qed.

(** A line of decimal digits matches the dice-list pattern with an
    empty word. *)
Lemma dicelist_digits_only s :
  s <> [] -> forallb isdecimal s = true ->
  fullmatch (_line_pattern DICELIST_EFF) s = Some [("word"%string, [])].
Proof.
  intros Hne Hd. unfold fullmatch. cbn [_line_pattern rmatch].
  destruct s as [|c s]; [congruence|].
  simpl in Hd. apply andb_true_iff in Hd as [Hc Hd].
  cbn [cs_mem]. rewrite Hc.
  apply rstar_all; [exact Hd | reflexivity].
Qed.

End RegexFacts.

Section ParserFacts.
Context {U : UnicodeData}.

(** The loop of [parse], one line at a time. *)
Lemma parse_lines_step self p line rest n acc :
  parse_lines self p (line :: rest) n acc
  = match line_result self line with
    | Blank => parse_lines self p rest (S n) acc
    | Accepted w =>
        parse_lines self p rest (S n) (acc ++ [mkWord w (length acc)])
    | Rejected reason => Raise (InvalidWordlist_new reason n p self)
    | Unbound => Raise AssertionError
    end.
Proof.
  unfold line_result. cbn [parse_lines].
  destruct (strip line) as [|c l]; [reflexivity|].
  destruct (fullmatch (_line_pattern self) (c :: l)) as [m|]; [|reflexivity].
  destruct (group m "word") as [w|]; [|reflexivity].
  unfold Word_new.
  destruct (fullmatch VALID_WORD_PATTERN w); reflexivity.
Qed.

Lemma line_result_bound self line : line_result self line <> Unbound.
Proof.
  unfold line_result. destruct (strip line) as [|c l]; [discriminate|].
  destruct (fullmatch (_line_pattern self) (c :: l)) as [m|] eqn:E;
    [|discriminate].
  apply line_pattern_binds in E as [w ->].
  cbn [group]. rewrite String.eqb_refl.
  destruct (fullmatch VALID_WORD_PATTERN w); discriminate.
Qed.

Lemma line_result_blank self line :
  line_result self line = Blank <-> is_blank line = true.
Proof.
  unfold is_blank, line_result. destruct (strip line) as [|c l].
  - tauto.
  - split; [|discriminate].
    destruct (fullmatch (_line_pattern self) (c :: l)) as [m|];
      [|discriminate].
    destruct (group m "word") as [w|]; [|discriminate].
    destruct (fullmatch VALID_WORD_PATTERN w); discriminate.
Qed.

Lemma line_result_accepted self line w :
  line_result self line = Accepted w -> valid_word w = true.
Proof.
  unfold line_result. destruct (strip line) as [|c l]; [discriminate|].
  destruct (fullmatch (_line_pattern self) (c :: l)) as [m|];
    [|discriminate].
  destruct (group m "word") as [w'|]; [|discriminate].
  rewrite fullmatch_VALID_WORD_PATTERN.
  destruct (valid_word w') eqn:E; [|discriminate].
  intros H; inversion H; subst; exact E.
Qed.

Lemma fails_pattern_rejected self line :
  fails_pattern self line ->
  line_result self line = Rejected (lit "Not a valid line").
Proof.
  intros [Hne Hf]. unfold line_result.
  destruct (strip line) as [|c l]; [congruence|].
  rewrite Hf. reflexivity.
Qed.

(** In the plain format the captured word is the whole trimmed line,
    so a line is blank, accepted as it is, or fails the pattern. *)
Lemma line_result_PLAIN line :
  line_result PLAIN line
  = match strip line with
    | [] => Blank
    | c :: l =>
        if valid_word (c :: l) then Accepted (c :: l)
        else Rejected (lit "Not a valid line")
    end.
Proof.
  unfold line_result. destruct (strip line) as [|c l]; [reflexivity|].
  cbn [_line_pattern]. rewrite fullmatch_VALID_WORD_PATTERN.
  destruct (valid_word (c :: l)) eqn:E; [|reflexivity].
  cbn [group]. rewrite String.eqb_refl, fullmatch_VALID_WORD_PATTERN, E.
  reflexivity.
Qed.

Lemma InvalidWordlist_new_pos reason n p self :
  1 <= n ->
  InvalidWordlist_new reason n p self = InvalidWordlist reason n p self.
Proof.
  intros H. unfold InvalidWordlist_new.
  destruct (Nat.leb_spec 1 n); [reflexivity | lia].
Qed.

(** When no line is rejected, the accepted texts are appended in file
    order with consecutive indices. *)
Lemma parse_lines_accepts self p lines :
  (forall l, In l lines -> ~ rejected self l) ->
  forall n acc,
    parse_lines self p lines n acc
    = Ok (acc ++ number_from (length acc) (accepted_texts self lines)).
Proof.
  induction lines as [|l rest IH]; intros Hok n acc.
  - cbn. rewrite app_nil_r. reflexivity.
  - rewrite parse_lines_step. cbn [accepted_texts].
    assert (Hrest : forall l', In l' rest -> ~ rejected self l')
      by (intros l' Hin; apply Hok; right; exact Hin).
    destruct (line_result self l) as [|w|reason|] eqn:E.
    + apply IH, Hrest.
    + rewrite (IH Hrest). cbn [number_from].
      rewrite length_app, <- app_assoc. cbn [length app].
      rewrite Nat.add_1_r. reflexivity.
    + exfalso. apply (Hok l); [left; reflexivity | exists reason; exact E].
    + exfalso. exact (line_result_bound _ _ E).
Qed.

(** The first rejected line decides the outcome. *)
Lemma parse_lines_first_rejected self p before line reason after :
  (forall l, In l before -> ~ rejected self l) ->
  line_result self line = Rejected reason ->
  forall n acc,
    parse_lines self p (before ++ line :: after) n acc
    = Raise (InvalidWordlist_new reason (n + length before) p self).
Proof.
  induction before as [|l rest IH]; intros Hok Hrej n acc.
  - cbn [app length]. rewrite parse_lines_step, Hrej, Nat.add_0_r.
    reflexivity.
  - cbn [app length]. rewrite parse_lines_step.
    assert (Hrest : forall l', In l' rest -> ~ rejected self l')
      by (intros l' Hin; apply Hok; right; exact Hin).
    replace (n + S (length rest)) with (S n + length rest) by lia.
    destruct (line_result self l) as [|w|r|] eqn:E.
    + apply IH; assumption.
    + apply IH; assumption.
    + exfalso. apply (Hok l); [left; reflexivity | exists r; exact E].
    + exfalso. exact (line_result_bound _ _ E).
Qed.

(** Any list of lines splits at its first rejected line, if it has
    one. *)
Lemma first_rejected_split self lines :
  (forall l, In l lines -> ~ rejected self l)
  \/ exists before line reason after,
       lines = before ++ line :: after
       /\ (forall l, In l before -> ~ rejected self l)
       /\ line_result self line = Rejected reason.
Proof.
  induction lines as [|l rest IH].
  - left. intros l [].
  - destruct (line_result self l) as [|w|reason|] eqn:E.
    1,2,4: destruct IH as [Hok | (before & line & reason & after & -> & Hb & Hr)];
      [ left; intros l' [<-|Hin];
        [intros [r Hr]; congruence | apply Hok; exact Hin]
      | right; exists (l :: before), line, reason, after;
        split; [reflexivity|]; split; [|exact Hr];
        intros l' [<-|Hin];
        [intros [r Hr']; congruence | apply Hb; exact Hin] ].
    right. exists [], l, reason, rest.
    split; [reflexivity|]. split; [intros l' []|exact E].
Qed.

End ParserFacts.

Section ParserClaims.
Context {U : UnicodeData}.

Lemma number_from_length start texts :
  length (number_from start texts) = length texts.
Proof.
  revert start. induction texts as [|t r IH]; intros start; cbn;
    [reflexivity | rewrite IH; reflexivity].
Qed.

Lemma number_from_word start texts :
  map word (number_from start texts) = texts.
Proof.
  revert start. induction texts as [|t r IH]; intros start; cbn;
    [reflexivity | rewrite IH; reflexivity].
Qed.

Lemma number_from_index start texts :
  map index (number_from start texts) = seq start (length texts).
Proof.
  revert start. induction texts as [|t r IH]; intros start; cbn;
    [reflexivity | rewrite IH; reflexivity].
Qed.

Lemma number_from_nth start texts i w :
  nth_error (number_from start texts) i = Some w -> index w = start + i.
Proof.
  revert start i. induction texts as [|t r IH]; intros start i.
  - destruct i; discriminate.
  - destruct i as [|i]; cbn.
    + intros H; inversion H; cbn; lia.
    + intros H. apply IH in H. lia.
Qed.

Lemma accepted_texts_PLAIN lines :
  (forall l, In l lines -> ~ rejected PLAIN l) ->
  accepted_texts PLAIN lines = map strip (remove_blank lines).
Proof.
  induction lines as [|l rest IH]; intros Hok; [reflexivity|].
  assert (Hrest : forall l', In l' rest -> ~ rejected PLAIN l')
    by (intros l' Hin; apply Hok; right; exact Hin).
  specialize (Hok l (or_introl eq_refl)).
  unfold remove_blank in *. cbn [accepted_texts filter].
  unfold rejected in Hok. unfold is_blank at 1.
  rewrite line_result_PLAIN in *.
  destruct (strip l) as [|c s] eqn:E.
  - cbn. apply IH, Hrest.
  - destruct (valid_word (c :: s)).
    + cbn. rewrite E, (IH Hrest). reflexivity.
    + exfalso. apply Hok. eauto.
Qed.

Lemma plain_matches_not_rejected l :
  (strip l <> [] -> fullmatch (_line_pattern PLAIN) (strip l) <> None) ->
  ~ rejected PLAIN l.
Proof.
  intros H [reason Hr]. rewrite line_result_PLAIN in Hr.
  destruct (strip l) as [|c s]; [discriminate|].
  cbn [_line_pattern] in H. rewrite fullmatch_VALID_WORD_PATTERN in H.
  destruct (valid_word (c :: s)); [discriminate|].
  apply H; [discriminate | reflexivity].
Qed.

(** C2: a plain wordlist whose non-blank lines all fully match the
    line pattern after trimming parses to one word per non-blank
    line, in file order; the word at position [i] of the result has
    index [i], so the indices are 0..N-1 for N non-blank lines. *)
Theorem parse_plain_indices (lines : list str) (p : path) :
  (forall l, In l lines -> strip l <> [] ->
             fullmatch (_line_pattern PLAIN) (strip l) <> None) ->
  exists ws,
    parse PLAIN lines p = Ok ws
    /\ length ws = length (remove_blank lines)
    /\ map word ws = map strip (remove_blank lines)
    /\ map index ws = seq 0 (length (remove_blank lines))
    /\ forall i w, nth_error ws i = Some w -> index w = i.
Proof.
  intros Hvalid.
  assert (Hok : forall l, In l lines -> ~ rejected PLAIN l)
    by (intros l Hin; apply plain_matches_not_rejected, Hvalid, Hin).
  exists (number_from 0 (map strip (remove_blank lines))).
  unfold parse. rewrite parse_lines_accepts by exact Hok.
  rewrite accepted_texts_PLAIN by exact Hok. cbn [app length].
  rewrite number_from_length, number_from_word, number_from_index.
  rewrite length_map. repeat split.
  intros i w H. apply number_from_nth in H. exact H.
Qed.

(** C4: under [dicelist-eff] the line [42  correct] parses to the
    single word [correct]; a line that trims to decimal digits only
    fully matches the line pattern with an empty captured word, which
    the word pattern rejects, and parsing fails with [Invalid word '']
    at that line; the line [42  ] is such a line. *)
Theorem parse_dicelist_examples (p : path) :
  parse DICELIST_EFF [lit "42  correct"] p = Ok [mkWord (lit "correct") 0]
  /\ (forall line,
        strip line <> [] -> forallb isdecimal (strip line) = true ->
        fullmatch (_line_pattern DICELIST_EFF) (strip line)
        = Some [("word"%string, [])]
        /\ fullmatch VALID_WORD_PATTERN [] = None
        /\ parse DICELIST_EFF [line] p
           = Raise (InvalidWordlist (lit "Invalid word ''") 1 p
                      DICELIST_EFF))
  /\ strip (lit "42  ") = lit "42"
  /\ parse DICELIST_EFF [lit "42  "] p
     = Raise (InvalidWordlist (lit "Invalid word ''") 1 p DICELIST_EFF).
Proof.
  split; [reflexivity|]. split; [|split; reflexivity].
  intros line Hne Hd.
  pose proof (dicelist_digits_only Hne Hd) as Hm.
  split; [exact Hm|]. split; [reflexivity|].
  unfold parse. rewrite parse_lines_step. unfold line_result.
  destruct (strip line) as [|c s]; [congruence|].
  rewrite Hm. reflexivity.
Qed.

Lemma remove_blank_app a b :
  remove_blank (a ++ b) = remove_blank a ++ remove_blank b.
Proof. apply filter_app. Qed.

Lemma count_blank_split lines :
  length lines = count_blank lines + length (remove_blank lines).
Proof.
  unfold count_blank, remove_blank.
  induction lines as [|l rest IH]; [reflexivity|].
  cbn [filter length]. destruct (is_blank l); cbn [negb length]; lia.
Qed.

Lemma accepted_texts_remove_blank self lines :
  accepted_texts self (remove_blank lines) = accepted_texts self lines.
Proof.
  unfold remove_blank. induction lines as [|l rest IH]; [reflexivity|].
  cbn [filter accepted_texts].
  destruct (is_blank l) eqn:E; cbn [negb].
  - apply (proj2 (line_result_blank self l)) in E. rewrite E. exact IH.
  - cbn [accepted_texts]. rewrite IH. reflexivity.
Qed.

Lemma remove_blank_In lines l : In l (remove_blank lines) -> In l lines.
Proof. unfold remove_blank. intros H. apply filter_In in H. tauto. Qed.

Lemma rejected_not_blank self line reason :
  line_result self line = Rejected reason -> is_blank line = false.
Proof.
  intros H. destruct (is_blank line) eqn:E; [|reflexivity].
  apply (proj2 (line_result_blank self line)) in E. congruence.
Qed.

(** C5, as amended: deleting the blank lines of a file leaves the
    outcome of [parse] unchanged, for every file and format, except
    for the line number an error carries: a file that parses gives
    the same words with the same indices, a file that does not gives
    the same error at the same line, whose number has gone down by
    the number of blank lines before it. *)
Theorem parse_remove_blank (self : WordlistFormat) (lines : list str)
    (p : path) :
  parse self (remove_blank lines) p = renumber lines (parse self lines p).
Proof.
  unfold parse.
  destruct (first_rejected_split self lines)
    as [Hok | (before & line & reason & after & -> & Hb & Hr)].
  - rewrite (parse_lines_accepts p lines) by exact Hok.
    rewrite parse_lines_accepts
      by (intros l Hin; apply Hok, remove_blank_In, Hin).
    rewrite accepted_texts_remove_blank. reflexivity.
  - rewrite (parse_lines_first_rejected p before line after Hb Hr).
    rewrite remove_blank_app. unfold remove_blank at 2. cbn [filter].
    rewrite (rejected_not_blank _ _ Hr). cbn [negb].
    fold (remove_blank after).
    assert (Hb' : forall l, In l (remove_blank before) -> ~ rejected self l)
      by (intros l Hin; apply Hb, remove_blank_In, Hin).
    rewrite (parse_lines_first_rejected p (remove_blank before) line
               (remove_blank after) Hb' Hr).
    rewrite !InvalidWordlist_new_pos by lia. cbn [renumber].
    replace (1 + length before - 1) with (length before) by lia.
    rewrite firstn_app, firstn_all, Nat.sub_diag. cbn [firstn].
    rewrite app_nil_r. pose proof (count_blank_split before) as Hsplit.
    replace (1 + length before - count_blank before)
      with (1 + length (remove_blank before)) by lia.
    reflexivity.
Qed.

(** C6, as amended: when the line at position [i] (counted from 0) is
    not blank and fails the line pattern of the format, [parse] fails
    with an [InvalidWordlist] error whose line number is at most
    [i + 1] and returns no list; when no earlier line is rejected, the
    error is [Not a valid line] with line number [i + 1]. *)
Theorem parse_reports_first_failing_line (self : WordlistFormat)
    (lines : list str) (p : path) (i : nat) (line : str) :
  nth_error lines i = Some line ->
  fails_pattern self line ->
  (exists reason n,
     parse self lines p = Raise (InvalidWordlist reason n p self)
     /\ 1 <= n <= S i)
  /\ ((forall j l, j < i -> nth_error lines j = Some l -> ~ rejected self l) ->
      parse self lines p
      = Raise (InvalidWordlist (lit "Not a valid line") (S i) p self)).
Proof.
  intros Hnth Hfail.
  pose proof (fails_pattern_rejected Hfail) as Hrej.
  destruct (nth_error_split lines i Hnth) as (before & after & -> & Hlen).
  assert (Hexact :
    (forall l, In l before -> ~ rejected self l) ->
    parse self (before ++ line :: after) p
    = Raise (InvalidWordlist (lit "Not a valid line") (S i) p self)).
  { intros Hb. unfold parse.
    rewrite (parse_lines_first_rejected p before line after Hb Hrej).
    rewrite InvalidWordlist_new_pos by lia. rewrite Hlen. reflexivity. }
  split.
  - destruct (first_rejected_split self before)
      as [Hok | (b1 & l1 & r1 & a1 & -> & Hb1 & Hr1)].
    + exists (lit "Not a valid line"), (S i). split; [auto | lia].
    + exists r1, (S (length b1)). split.
      * unfold parse. rewrite <- app_assoc. cbn [app].
        rewrite (parse_lines_first_rejected p b1 l1 (a1 ++ line :: after)
                   Hb1 Hr1).
        rewrite InvalidWordlist_new_pos by lia. reflexivity.
      * rewrite length_app in Hlen. cbn [length] in Hlen. lia.
  - intros Hearlier. apply Hexact. intros l Hin.
    apply In_nth_error in Hin as [j Hj].
    apply (Hearlier j l).
    + rewrite <- Hlen. apply nth_error_Some. congruence.
    + rewrite nth_error_app1; [exact Hj|].
      apply nth_error_Some. congruence.
Qed.

(** Every word of a successful parse has an accepted text. *)
Lemma parse_words_valid self lines p ws :
  parse self lines p = Ok ws ->
  Forall (fun w => valid_word (word w) = true) ws.
Proof.
  unfold parse. intros H.
  destruct (first_rejected_split self lines)
    as [Hok | (before & line & reason & after & -> & Hb & Hr)].
  - rewrite parse_lines_accepts in H by exact Hok.
    inversion H; subst; clear H. cbn [app length].
    assert (Ht : Forall (fun t => valid_word t = true)
                   (accepted_texts self lines)).
    { clear Hok. induction lines as [|l rest IH]; [constructor|].
      cbn [accepted_texts].
      destruct (line_result self l) eqn:E; try exact IH.
      constructor; [|exact IH]. exact (line_result_accepted _ _ E). }
    generalize 0. induction Ht as [|t r Hv Ht IH]; intros n; cbn;
      constructor; auto.
  - rewrite (parse_lines_first_rejected p before line after Hb Hr) in H.
    discriminate.
Qed.

(** C9: constructing a [Word] raises [ValueError] unless its text
    fully matches the allowed-word pattern, that is unless the text
    has one or more characters, each a word character or a hyphen;
    a constructed [Word] holds the text and index it was given; and
    every [Word] returned by [parse], in either format, has such a
    text. *)
Theorem word_shape_invariant :
  (forall text,
     fullmatch VALID_WORD_PATTERN text <> None
     <-> text <> [] /\ Forall (fun c => word_char c = true) text)
  /\ (forall i text,
        fullmatch VALID_WORD_PATTERN text = None ->
        Word_new i text
        = Raise (ValueError (lit "Invalid word: " ++ repr text)))
  /\ (forall i text w,
        Word_new i text = Ok w ->
        w = mkWord text i /\ fullmatch VALID_WORD_PATTERN (word w) <> None)
  /\ (forall self lines p ws,
        parse self lines p = Ok ws ->
        Forall (fun w => fullmatch VALID_WORD_PATTERN (word w) <> None) ws).
Proof.
  split; [|split; [|split]].
  - intros text. rewrite fullmatch_VALID_WORD_PATTERN, <- valid_word_spec.
    destruct (valid_word text); split; congruence.
  - intros i text H. unfold Word_new. rewrite H. reflexivity.
  - intros i text w. unfold Word_new.
    destruct (fullmatch VALID_WORD_PATTERN text) eqn:E; [|discriminate].
    intros H; inversion H; subst. cbn [word]. split; congruence.
  - intros self lines p ws H. apply parse_words_valid in H.
    eapply Forall_impl; [|exact H]. cbn beta. intros w Hw.
    rewrite fullmatch_VALID_WORD_PATTERN, Hw. discriminate.
Qed.

(** C10: in the plain format, a trimmed line that fully matches the
    line pattern is captured whole as the word and fully matches the
    allowed-word pattern, so the only error [parse] can end with is
    [Not a valid line]: the [Invalid word] branch is never taken. *)
Theorem plain_word_check_never_fails :
  (forall line m,
     fullmatch (_line_pattern PLAIN) line = Some m ->
     group m "word" = Some line
     /\ fullmatch VALID_WORD_PATTERN line <> None)
  /\ (forall lines p e,
        parse PLAIN lines p = Raise e ->
        exists n, e = InvalidWordlist (lit "Not a valid line") n p PLAIN).
Proof.
  split.
  - intros line m. cbn [_line_pattern]. intros H. rewrite H.
    rewrite fullmatch_VALID_WORD_PATTERN in H.
    destruct (valid_word line); [|discriminate].
    inversion H; subst. cbn [group]. rewrite String.eqb_refl.
    split; [reflexivity | discriminate].
  - intros lines p e. unfold parse.
    destruct (first_rejected_split PLAIN lines)
      as [Hok | (before & line & reason & after & -> & Hb & Hr)].
    + rewrite parse_lines_accepts by exact Hok. discriminate.
    + rewrite (parse_lines_first_rejected p before line after Hb Hr).
      rewrite InvalidWordlist_new_pos by lia.
      rewrite line_result_PLAIN in Hr.
      destruct (strip line) as [|c s]; [discriminate|].
      destruct (valid_word (c :: s)); [discriminate|].
      inversion Hr; subst. intros H; inversion H; subst. eauto.
Qed.

End ParserClaims.

Section FormatFacts.
Context {U : UnicodeData}.

Lemma format_02_length i : 2 <= length (format_02 i).
Proof.
  unfold format_02. cbv zeta. rewrite length_app, repeat_length.
  set (n := length (str_of_nat i)). change (2 <= 2 - n + n). lia.
Qed.


Lemma count_char_absent c s : has_char c s = false -> count_char c s = 0.
Proof.
  unfold has_char, count_char. induction s as [|x r IH]; [reflexivity|].
  cbn [existsb filter]. intros H. apply orb_false_iff in H as [Hx Hr].
  rewrite Hx. apply IH, Hr.
Qed.

Lemma count_char_app c a b :
  count_char c (a ++ b) = count_char c a + count_char c b.
Proof. unfold count_char. rewrite filter_app, length_app. reflexivity. Qed.

(** Texts that do not contain the separator are joined by one separator
    less than there are texts. *)
Lemma count_char_join c texts :
  Forall (fun t => has_char c t = false) texts ->
  count_char c (join [c] texts) = length texts - 1.
Proof.
  induction 1 as [|t r Ht Hr IH]; [reflexivity|].
  destruct r as [|t' r'].
  - cbn [join length]. rewrite (count_char_absent _ _ Ht). reflexivity.
  - change (join [c] (t :: t' :: r')) with (t ++ [c] ++ join [c] (t' :: r')).
    rewrite !count_char_app, IH, (count_char_absent _ _ Ht).
    unfold count_char at 1. cbn [filter]. unfold char_eqb.
    rewrite N.eqb_refl. cbn [length]. lia.
Qed.

(** A character outside the allowed-word set is in no accepted text. *)
Lemma valid_word_has_no c s :
  word_char c = false -> valid_word s = true -> has_char c s = false.
Proof.
  intros Hc Hv. apply valid_word_spec in Hv as [_ Hall]. unfold has_char.
  induction Hall as [|x r Hx _ IH]; [reflexivity|].
  cbn [existsb]. rewrite IH, orb_false_r. unfold char_eqb.
  destruct (N.eqb_spec c x) as [->|]; [congruence | reflexivity].
Qed.

(** The characters [repr] prints as they are. *)
Lemma repr_char_plain q c :
  c <> q -> c <> 92%N -> (32 <= c)%N -> c <> 127%N ->
  ((127 < c)%N -> isprintable c = true) ->
  repr_char q c = [c].
Proof.
  intros Hq Hb Hlo Hdel Hpr. unfold repr_char, char_eqb.
  destruct (N.eqb_spec c q); [congruence|].
  destruct (N.eqb_spec c 92); [congruence|]. cbn [orb].
  destruct (N.eqb_spec c 9); [lia|].
  destruct (N.eqb_spec c 10); [lia|].
  destruct (N.eqb_spec c 13); [lia|].
  destruct (N.ltb_spec c 32); [lia|].
  destruct (N.eqb_spec c 127); [congruence|]. cbn [orb].
  destruct (N.ltb_spec c 127); [reflexivity|].
  rewrite Hpr by lia. reflexivity.
Qed.

(** The characters of the allowed-word set: the ASCII letters and
    digits, the underscore and the hyphen, and the alphanumeric code
    points beyond. *)
Lemma word_char_cases c :
  word_char c = true ->
  ((c < 128)%N
   /\ ((48 <= c <= 57)%N \/ (65 <= c <= 90)%N \/ (97 <= c <= 122)%N
       \/ c = 95%N \/ c = 45%N))
  \/ ((128 <= c)%N /\ uni_isalnum c = true).
Proof.
  unfold word_char. cbn [cs_mem].
  unfold isalnum, is_ascii, in_range, char_eqb.
  destruct (N.ltb_spec c 128) as [Hlt|Hge].
  - rewrite !orb_true_iff, !andb_true_iff, !N.leb_le, !N.eqb_eq.
    intros H. left. split; [exact Hlt | tauto].
  - rewrite !orb_true_iff, !N.eqb_eq.
    intros [[H|H]|H]; [right; split; assumption | lia | lia].
Qed.

(** A character of a word is printed as it is by [repr], and is not a
    quote. *)
Lemma word_char_repr c :
  word_char c = true -> repr_char 39 c = [c] /\ char_eqb 39 c = false.
Proof.
  intros H. apply word_char_cases in H.
  assert (Hpr : (127 < c)%N -> isprintable c = true).
  { intros Hc. destruct H as [[Hlt _]|[Hge Ha]].
    - unfold isprintable, is_ascii, in_range.
      destruct (N.ltb_spec c 128); [|lia].
      apply andb_true_iff. rewrite !N.leb_le. lia.
    - unfold isprintable, is_ascii.
      destruct (N.ltb_spec c 128); [lia|].
      apply uni_alnum_printable, Ha. }
  split.
  - apply repr_char_plain; try exact Hpr; lia.
  - unfold char_eqb. apply N.eqb_neq. lia.
Qed.

(** [repr] of an accepted text is the text between single quotes. *)
Lemma repr_valid_word s :
  valid_word s = true -> repr s = [39%N] ++ s ++ [39%N].
Proof.
  intros Hv. apply valid_word_spec in Hv as [_ Hall].
  assert (Hq : has_char 39 s = false).
  { unfold has_char. induction Hall as [|c r Hc _ IH]; [reflexivity|].
    cbn [existsb]. rewrite (proj2 (word_char_repr c Hc)), IH. reflexivity. }
  unfold repr, repr_quote. rewrite Hq. cbn [andb]. do 2 f_equal.
  induction Hall as [|c r Hc _ IH]; [reflexivity|].
  cbn [flat_map]. rewrite (proj1 (word_char_repr c Hc)).
  cbn [existsb] in Hq. apply orb_false_iff in Hq as [_ Hq].
  rewrite (IH Hq). reflexivity.
Qed.

Lemma has_char_app c a b :
  has_char c (a ++ b) = has_char c a || has_char c b.
Proof. unfold has_char. apply existsb_app. Qed.

(** A character other than the separator, and in none of the texts,
    is not in their join. *)
Lemma has_char_join c d texts :
  char_eqb d c = false ->
  Forall (fun t => has_char d t = false) texts ->
  has_char d (join [c] texts) = false.
Proof.
  intros Hd. induction 1 as [|t r Ht Hr IH]; [reflexivity|].
  destruct r as [|t' r']; [exact Ht|].
  change (join [c] (t :: t' :: r')) with (t ++ [c] ++ join [c] (t' :: r')).
  rewrite !has_char_app, Ht, IH. cbn [has_char existsb]. rewrite Hd.
  reflexivity.
Qed.

(** The line feed is no character of a word, of a number in decimal or
    of a pick line. *)
Lemma word_char_line_feed : word_char 10 = false.
Proof. reflexivity. Qed.

Lemma uint_digits_line_feed d : has_char 10 (uint_digits d) = false.
Proof. induction d; cbn; auto. Qed.

Lemma format_02_line_feed i : has_char 10 (format_02 i) = false.
Proof.
  unfold format_02. cbv zeta. rewrite has_char_app.
  unfold str_of_nat. rewrite uint_digits_line_feed, orb_false_r.
  induction (2 - length (uint_digits (Nat.to_uint i))) as [|n IH];
    [reflexivity | exact IH].
Qed.

Lemma pick_line_line_feed i pick :
  valid_word (word pick) = true -> has_char 10 (pick_line i pick) = false.
Proof.
  intros Hv. unfold pick_line. rewrite !has_char_app.
  rewrite format_02_line_feed. unfold str_of_nat.
  rewrite uint_digits_line_feed.
  rewrite (@valid_word_has_no 10%N (word pick) word_char_line_feed Hv).
  reflexivity.
Qed.

(** The trace of the picks has one line feed per pick, the one that
    ends its line. *)
Lemma pick_trace_lines picks :
  Forall (fun pick => valid_word (word pick) = true) picks ->
  forall i, count_char 10 (pick_trace i picks) = length picks.
Proof.
  induction 1 as [|pick rest Hv _ IH]; intros i; [reflexivity|].
  cbn [pick_trace length]. rewrite !count_char_app, IH.
  rewrite (count_char_absent _ _ (pick_line_line_feed i pick Hv)).
  reflexivity.
Qed.

End FormatFacts.

Section CommandFacts.
Context {U : UnicodeData}.
Variable fs : filesystem.
Variable entropy : nat -> nat.

(** The text the loop writes for a draw is [pick_line] when the word
    is an accepted one. *)
Lemma pick_line_describe i pick :
  valid_word (word pick) = true ->
  format_02 i ++ lit " picked" ++ lit " " ++ describe pick
  = pick_line i pick.
Proof.
  intros Hv. unfold describe, pick_line. rewrite (repr_valid_word _ Hv).
  reflexivity.
Qed.

Lemma drawn_length wordlist x d todo :
  length (drawn entropy wordlist x d todo) = todo.
Proof.
  revert d. induction todo as [|t IH]; intros d; cbn;
    [reflexivity | rewrite IH; reflexivity].
Qed.

Lemma drawn_In x xs d todo :
  Forall (fun pick => In pick (x :: xs)) (drawn entropy (x :: xs) x d todo).
Proof.
  revert d. induction todo as [|t IH]; intros d; cbn [drawn];
    constructor; [|apply IH].
  apply nth_In. apply Nat.mod_upper_bound. discriminate.
Qed.

(** The sampling loop over an empty wordlist fails at its first draw
    and writes nothing. *)
Lemma sample_loop_empty quiet todo i acc w :
  sample_loop entropy [] quiet (S todo) i acc w = (w, Raise IndexError).
Proof. reflexivity. Qed.

(** The sampling loop over a non-empty wordlist of accepted words. *)
Lemma sample_loop_draws x xs quiet :
  Forall (fun pick => valid_word (word pick) = true) (x :: xs) ->
  forall todo i acc w,
    sample_loop entropy (x :: xs) quiet todo i acc w
    = (mkWorld (stdout w)
         (stderr w
            ++ (if quiet then []
                else pick_trace i
                       (drawn entropy (x :: xs) x (draws w) todo)))
         (files w) (draws w + todo),
       Ok (acc ++ map word (drawn entropy (x :: xs) x (draws w) todo))).
Proof.
  intros Hvalid. induction todo as [|t IH]; intros i acc w.
  - cbn [sample_loop drawn pick_trace map]. unfold ret.
    destruct quiet; rewrite !app_nil_r, Nat.add_0_r; destruct w;
      reflexivity.
  - cbn [sample_loop drawn]. unfold bind at 1. unfold secrets_choice.
    set (k := entropy (draws w) mod length (x :: xs)).
    assert (Hk : k < length (x :: xs))
      by (apply Nat.mod_upper_bound; discriminate).
    destruct (nth_error (x :: xs) k) as [pick|] eqn:E;
      [|apply nth_error_None in E; lia].
    rewrite (nth_error_nth _ _ x E).
    assert (Hpick : valid_word (word pick) = true).
    { rewrite Forall_forall in Hvalid. apply Hvalid.
      eapply nth_error_In, E. }
    unfold bind. destruct quiet; cbn [negb].
    + unfold ret. rewrite IH. cbn [stdout stderr files draws map].
      rewrite <- app_assoc, Nat.add_succ_r. reflexivity.
    + rewrite (pick_line_describe _ _ Hpick). unfold print_stderr.
      rewrite IH. cbn [stdout stderr files draws map pick_trace].
      rewrite <- !app_assoc, Nat.add_succ_r. reflexivity.
Qed.

(** The command either stops in click with a usage error, before the
    function is called, or calls the function on a known format, a
    readable file (one that decodes, or one that does not) and a count
    of at least one. *)
Lemma run_cases a :
  (exists opt why, run fs entropy a = (initial_world, Raise (UsageError opt why)))
  \/ (exists name fmt p content,
        arg_wordlist_format a = Some name
        /\ arg_wordlist a = Some p
        /\ WordlistFormat_of_value name = Some fmt
        /\ fs p = Some (RegularFile true content)
        /\ (1 <= arg_count a)%Z
        /\ run fs entropy a
           = generate_passphrase fs entropy name p (arg_count a)
               (arg_quiet a) (convert_join_char (arg_join_char a))
               initial_world)
  \/ (exists name fmt p decoded,
        arg_wordlist_format a = Some name
        /\ arg_wordlist a = Some p
        /\ WordlistFormat_of_value name = Some fmt
        /\ fs p = Some (UndecodableFile true decoded)
        /\ (1 <= arg_count a)%Z
        /\ run fs entropy a
           = generate_passphrase fs entropy name p (arg_count a)
               (arg_quiet a) (convert_join_char (arg_join_char a))
               initial_world).
Proof.
  unfold run, command, bind, lift.
  unfold convert_wordlist_format, convert_wordlist, convert_count.
  destruct (arg_wordlist_format a) as [name|]; [|left; eauto].
  destruct (WordlistFormat_of_value name) as [fmt|] eqn:Ef; [|left; eauto].
  destruct (arg_wordlist a) as [p|]; [|left; eauto].
  destruct (fs p) as [[|readable content|readable decoded]|] eqn:Efs;
    [left; eauto| | |left; eauto].
  - destruct readable; [|left; eauto].
    destruct (Z.leb_spec 1 (arg_count a)); [|left; eauto].
    right. left. exists name, fmt, p, content. repeat split; assumption.
  - destruct readable; [|left; eauto].
    destruct (Z.leb_spec 1 (arg_count a)); [|left; eauto].
    right. right. exists name, fmt, p, decoded. repeat split; assumption.
Qed.

(** What the function does, case by case. *)
Lemma generate_passphrase_cases name fmt p content n quiet jc :
  WordlistFormat_of_value name = Some fmt ->
  fs p = Some (RegularFile true content) ->
  (1 <= n)%Z ->
  generate_passphrase fs entropy name p n quiet jc initial_world
  = if negb (length jc =? 1) then
      (initial_world,
       Raise (ClickException
                (lit "The join char must be a single character, but got "
                   ++ repr jc)))
    else
      match parse fmt (readlines content) p with
      | Raise e => (mkWorld [] [] [Opened p; Closed p] 0, Raise e)
      | Ok [] => (mkWorld [] [] [Opened p; Closed p] 0, Raise IndexError)
      | Ok (x :: xs) =>
          let picks := drawn entropy (x :: xs) x 0 (Z.to_nat n) in
          (mkWorld (join jc (map word picks) ++ [10%N])
             (if quiet then [] else pick_trace 0 picks ++ [10%N])
             [Opened p; Closed p] (Z.to_nat n),
           Ok tt)
      end.
Proof.
  intros Hf Hfs Hn. unfold generate_passphrase.
  destruct (negb (length jc =? 1)); [reflexivity|].
  rewrite Hf. unfold open_file. rewrite Hfs.
  unfold bind at 1. unfold bind at 1. unfold log_file at 1. unfold ret at 1.
  unfold bind at 1. unfold log_file at 1.
  unfold bind at 1. unfold lift. unfold parse_stream.
  cbn [stdout stderr files draws initial_world app yielded ending].
  destruct (parse fmt (readlines content) p) as [wordlist|e] eqn:Ep;
    [|reflexivity].
  unfold bind at 1.
  destruct wordlist as [|x xs].
  - destruct (Z.to_nat n) as [|t] eqn:En; [lia|].
    rewrite sample_loop_empty. reflexivity.
  - rewrite sample_loop_draws by (exact (parse_words_valid _ _ _ Ep)).
    cbn [stdout stderr files draws app Nat.add]. cbv zeta.
    set (picks := drawn entropy (x :: xs) x 0 (Z.to_nat n)).
    assert (Hlen : (Z.of_nat (length (map word picks)) =? n)%Z = true).
    { unfold picks. rewrite length_map, drawn_length.
      apply Z.eqb_eq. lia. }
    assert (Hpos : (0 <? n)%Z = true) by (apply Z.ltb_lt; lia).
    unfold bind. destruct quiet; cbn [negb].
    + unfold ret. rewrite Hlen, Hpos. reflexivity.
    + unfold print_stderr. cbn [stdout stderr files draws app].
      rewrite Hlen, Hpos. unfold print_stdout.
      cbn [stdout stderr files draws app]. reflexivity.
Qed.

(** What the function does on a file that does not decode: past the
    check of the join string, it opens the file, fails while it reads
    it, on a rejected line or in the decoder, and closes it. *)
Lemma generate_passphrase_undecodable name fmt p decoded n quiet jc :
  WordlistFormat_of_value name = Some fmt ->
  fs p = Some (UndecodableFile true decoded) ->
  generate_passphrase fs entropy name p n quiet jc initial_world
  = if negb (length jc =? 1) then
      (initial_world,
       Raise (ClickException
                (lit "The join char must be a single character, but got "
                   ++ repr jc)))
    else
      (mkWorld [] [] [Opened p; Closed p] 0,
       Raise (match parse fmt decoded p with
              | Raise e => e
              | Ok _ => UnicodeDecodeError
              end)).
Proof.
  intros Hf Hfs. unfold generate_passphrase.
  destruct (negb (length jc =? 1)); [reflexivity|].
  rewrite Hf. unfold open_file. rewrite Hfs.
  unfold bind at 1. unfold bind at 1. unfold log_file at 1. unfold ret at 1.
  unfold bind at 1. unfold log_file at 1.
  unfold bind at 1. unfold lift. unfold parse_stream.
  cbn [stdout stderr files draws initial_world app yielded ending].
  destruct (parse fmt decoded p); reflexivity.
Qed.

End CommandFacts.

Section CommandClaims.
Context {U : UnicodeData}.
Variable fs : filesystem.
Variable entropy : nat -> nat.

Lemma run_accepted a name fmt p content :
  arg_wordlist_format a = Some name ->
  arg_wordlist a = Some p ->
  WordlistFormat_of_value name = Some fmt ->
  fs p = Some (RegularFile true content) ->
  (1 <= arg_count a)%Z ->
  run fs entropy a
  = generate_passphrase fs entropy name p (arg_count a) (arg_quiet a)
      (convert_join_char (arg_join_char a)) initial_world.
Proof.
  intros Hn Hp Hf Hfs Hc. unfold run, command, bind, lift.
  unfold convert_wordlist_format, convert_wordlist, convert_count.
  rewrite Hn, Hf, Hp, Hfs.
  destruct (Z.leb_spec 1 (arg_count a)); [reflexivity | lia].
Qed.


(** A run that succeeds has called the function on a file that
    decodes. *)
Lemma run_ok_cases a w :
  run fs entropy a = (w, Ok tt) ->
  exists name fmt p content,
    arg_wordlist_format a = Some name
    /\ arg_wordlist a = Some p
    /\ WordlistFormat_of_value name = Some fmt
    /\ fs p = Some (RegularFile true content)
    /\ (1 <= arg_count a)%Z
    /\ run fs entropy a
       = generate_passphrase fs entropy name p (arg_count a)
           (arg_quiet a) (convert_join_char (arg_join_char a))
           initial_world.
Proof.
  intros Hrun.
  destruct (run_cases fs entropy a)
    as [(opt & why & H) | [H | (name & fmt & p & decoded & H)]].
  - rewrite H in Hrun. discriminate.
  - exact H.
  - destruct H as (Hn & Hp & Hf & Hfs & Hc & H). rewrite H in Hrun.
    rewrite generate_passphrase_undecodable
      with (fmt := fmt) (decoded := decoded) in Hrun by assumption.
    destruct (negb (length (convert_join_char (arg_join_char a)) =? 1));
      discriminate.
Qed.







Lemma parse_all_blank self lines p :
  (forall l, In l lines -> is_blank l = true) ->
  parse self lines p = Ok [].
Proof.
  intros Hb. unfold parse.
  assert (Hok : forall l, In l lines -> ~ rejected self l).
  { intros l Hin [reason Hr].
    pose proof (proj2 (line_result_blank self l) (Hb l Hin)). congruence. }
  rewrite parse_lines_accepts by exact Hok. cbn [app length]. f_equal.
  clear Hok. induction lines as [|l rest IH]; [reflexivity|].
  cbn [accepted_texts].
  rewrite (proj2 (line_result_blank self l) (Hb l (or_introl eq_refl))).
  apply IH. intros l' Hin. apply Hb. right. exact Hin.
Qed.

(** C7: a file in which every line is blank (and so the empty file)
    parses to the empty list without an error, in either format; the
    command run on such a file, with options that are accepted, then
    fails with [IndexError] at its first draw: no draw is made and
    nothing is written to either stream. *)
Theorem empty_wordlist_fails_at_first_draw (a : Args) (name : str)
    (fmt : WordlistFormat) (p : path) (content : str) :
  arg_wordlist_format a = Some name ->
  WordlistFormat_of_value name = Some fmt ->
  arg_wordlist a = Some p ->
  fs p = Some (RegularFile true content) ->
  (1 <= arg_count a)%Z ->
  length (convert_join_char (arg_join_char a)) = 1 ->
  (forall l, In l (readlines content) -> is_blank l = true) ->
  (forall self, parse self (readlines content) p = Ok [])
  /\ run fs entropy a
     = (mkWorld [] [] [Opened p; Closed p] 0, Raise IndexError).
Proof.
  intros Hn Hf Hp Hfs Hc Hlen Hb.
  split; [intros self; apply parse_all_blank, Hb|].
  rewrite (run_accepted a Hn Hp Hf Hfs Hc).
  rewrite generate_passphrase_cases with (fmt := fmt) (content := content)
    by assumption.
  rewrite Hlen. cbn [Nat.eqb negb].
  rewrite (parse_all_blank fmt _ p Hb). reflexivity.
Qed.

(** C8, as amended: in a run that succeeds, with word count K, the
    text written to the primary output is the passphrase followed by
    one line feed, and nothing else.  It is exactly one line when the
    join character is not the line feed; the line feed is accepted as
    a join character, and the passphrase then takes K lines, one word
    each.  When the quiet flag is set nothing is written to the
    diagnostic stream, and when it is not, the diagnostic stream
    receives K pick lines, one per draw in order, followed by one
    empty line: K + 1 line feeds, none of them inside a pick line.
    The pick line of draw [i] shows [i] padded with zeros to two
    digits at least, then the index and the text of the picked
    word. *)
Theorem run_streams (a : Args) (w : World) :
  run fs entropy a = (w, Ok tt) ->
  exists x xs c,
    parsed_wordlist fs a = Some (x :: xs)
    /\ convert_join_char (arg_join_char a) = [c]
    /\ let picks :=
         drawn entropy (x :: xs) x 0 (Z.to_nat (arg_count a)) in
       Z.of_nat (length picks) = arg_count a
       /\ stdout w = join [c] (map word picks) ++ [10%N]
       /\ (arg_quiet a = true -> stderr w = [])
       /\ (arg_quiet a = false -> stderr w = pick_trace 0 picks ++ [10%N])
       /\ (forall i pick,
             pick_line i pick
             = format_02 i ++ lit " picked index "
                 ++ str_of_nat (index pick) ++ lit ": '" ++ word pick
                 ++ lit "'"
             /\ 2 <= length (format_02 i))
       /\ (c <> 10%N -> count_char 10 (stdout w) = 1)
       /\ (c = 10%N -> count_char 10 (stdout w) = length picks)
       /\ (arg_quiet a = false ->
           count_char 10 (stderr w) = S (length picks))
       /\ (forall i pick,
             In pick picks -> count_char 10 (pick_line i pick) = 0).
Proof.
  intros Hrun.
  destruct (run_ok_cases a Hrun)
    as (name & fmt & p & content & Hn & Hp & Hf & Hfs & Hc & H).
  rewrite H in Hrun.
  rewrite generate_passphrase_cases with (fmt := fmt) (content := content)
    in Hrun by assumption.
  destruct (Nat.eqb_spec (length (convert_join_char (arg_join_char a))) 1)
    as [Hlen|]; [|discriminate].
  cbn [negb] in Hrun.
  destruct (convert_join_char (arg_join_char a)) as [|c [|c' jc]];
    try discriminate.
  destruct (parse fmt (readlines content) p) as [[|x xs]|e] eqn:Ep;
    try discriminate.
  cbv zeta in Hrun. inversion Hrun; subst; clear Hrun.
  exists x, xs, c.
  unfold parsed_wordlist. rewrite Hn, Hp, Hf, Hfs, Ep. cbn [stdout stderr].
  cbv zeta.
  set (picks := drawn entropy (x :: xs) x 0 (Z.to_nat (arg_count a))).
  assert (Hk : length picks = Z.to_nat (arg_count a))
    by apply drawn_length.
  assert (Hvalid : Forall (fun pick => valid_word (word pick) = true) picks).
  { eapply Forall_impl; [|apply drawn_In]. cbn beta. intros pick Hin.
    pose proof (parse_words_valid _ _ _ Ep) as Hv.
    rewrite Forall_forall in Hv. apply Hv, Hin. }
  assert (Htexts : Forall (fun t => has_char 10 t = false) (map word picks)).
  { apply Forall_map. eapply Forall_impl; [|exact Hvalid]. cbn beta.
    intros pick Hv.
    apply valid_word_has_no; [apply word_char_line_feed | exact Hv]. }
  split; [reflexivity|]. split; [reflexivity|]. split; [lia|].
  split; [reflexivity|]. split; [intros ->; reflexivity|].
  split; [intros ->; reflexivity|].
  split; [intros i pick; split; [reflexivity | apply format_02_length]|].
  split; [|split; [|split]].
  - intros Hc10. rewrite count_char_app.
    rewrite count_char_absent; [reflexivity|].
    apply has_char_join; [|exact Htexts].
    unfold char_eqb. apply N.eqb_neq. congruence.
  - intros ->. rewrite count_char_app, count_char_join by exact Htexts.
    rewrite length_map. change (count_char 10 [10%N]) with 1. lia.
  - intros ->. rewrite count_char_app, pick_trace_lines by exact Hvalid.
    change (count_char 10 [10%N]) with 1. lia.
  - intros i pick Hin. apply count_char_absent, pick_line_line_feed.
    rewrite Forall_forall in Hvalid. apply Hvalid, Hin.
Qed.

End CommandClaims.

(** * Examples and counterexamples *)



Lemma parse_plain_indices_witness :
  let lines := [lit "alpha" ++ nl; nl; lit "beta" ++ nl] in
  exists ws,
    parse PLAIN lines (lit "words.txt") = Ok ws
    /\ length ws = length (remove_blank lines)
    /\ map word ws = map strip (remove_blank lines)
    /\ map index ws = seq 0 (length (remove_blank lines))
    /\ forall i w, nth_error ws i = Some w -> index w = i.
Proof.
  cbv zeta. apply parse_plain_indices.
  intros l Hin Hne. cbn [In] in Hin.
  destruct Hin as [<-|[<-|[<-|[]]]];
    first [ vm_compute; discriminate | exfalso; apply Hne; reflexivity ].
Defined.

(** C5, as stated, fails: a blank line before a line that is rejected
    changes the line number of the error, so the two parses differ. *)
Lemma parse_differs_without_blank_lines :
  let lines := [nl; lit "two words" ++ nl] in
  let p := lit "words.txt" in
  remove_blank lines = [lit "two words" ++ nl]
  /\ parse PLAIN lines p
     = Raise (InvalidWordlist (lit "Not a valid line") 2 p PLAIN)
  /\ parse PLAIN (remove_blank lines) p
     = Raise (InvalidWordlist (lit "Not a valid line") 1 p PLAIN)
  /\ parse PLAIN (remove_blank lines) p <> parse PLAIN lines p.
Proof.
  cbv zeta. repeat split; try reflexivity. vm_compute. discriminate.
Qed.

(** C6, as stated, fails: under [dicelist-eff] a line that fails the
    line pattern comes after a line with an empty word, and the error
    is [Invalid word ''] at line 1, not [Not a valid line]. *)
Lemma invalid_word_reported_before_invalid_line :
  let lines := [lit "42" ++ nl; lit "two words" ++ nl] in
  let p := lit "words.txt" in
  fails_pattern DICELIST_EFF (lit "two words" ++ nl)
  /\ parse DICELIST_EFF lines p
     = Raise (InvalidWordlist (lit "Invalid word ''") 1 p DICELIST_EFF)
  /\ ~ (forall self lines p line,
          In line lines -> fails_pattern self line ->
          exists n,
            parse self lines p
            = Raise (InvalidWordlist (lit "Not a valid line") n p self)).
Proof.
  cbv zeta.
  assert (Hf : fails_pattern DICELIST_EFF (lit "two words" ++ nl))
    by (split; [vm_compute; discriminate | reflexivity]).
  split; [exact Hf|]. split; [reflexivity|].
  intros H.
  destruct (H DICELIST_EFF [lit "42" ++ nl; lit "two words" ++ nl]
              (lit "words.txt") (lit "two words" ++ nl))
    as [n Hn]; [right; left; reflexivity | exact Hf |].
  vm_compute in Hn. discriminate Hn.
Qed.

Lemma parse_reports_first_failing_line_witness :
  let lines := [lit "alpha" ++ nl; nl; lit "two words" ++ nl] in
  let p := lit "words.txt" in
  nth_error lines 2 = Some (lit "two words" ++ nl)
  /\ fails_pattern PLAIN (lit "two words" ++ nl)
  /\ (exists reason n,
        parse PLAIN lines p = Raise (InvalidWordlist reason n p PLAIN)
        /\ 1 <= n <= 3)
  /\ ((forall j l, j < 2 -> nth_error lines j = Some l -> ~ rejected PLAIN l) ->
      parse PLAIN lines p
      = Raise (InvalidWordlist (lit "Not a valid line") 3 p PLAIN)).
Proof.
  cbv zeta.
  assert (Hf : fails_pattern PLAIN (lit "two words" ++ nl))
    by (split; [vm_compute; discriminate | reflexivity]).
  split; [reflexivity|]. split; [exact Hf|].
  exact (@parse_reports_first_failing_line latin1 PLAIN
           [lit "alpha" ++ nl; nl; lit "two words" ++ nl] (lit "words.txt") 2
           _ eq_refl Hf).
Defined.


Lemma empty_wordlist_fails_at_first_draw_witness :
  let a := example_args "blank.txt" 2 None false in
  let p := lit "blank.txt" in
  (forall l, In l (readlines (nl ++ lit "  " ++ nl)) -> is_blank l = true)
  /\ (forall self, parse self (readlines (nl ++ lit "  " ++ nl)) p = Ok [])
  /\ run example_fs example_entropy a
     = (mkWorld [] [] [Opened p; Closed p] 0, Raise IndexError).
Proof.
  cbv zeta.
  assert (Hb : forall l, In l (readlines (nl ++ lit "  " ++ nl)) ->
                         is_blank l = true).
  { intros l Hin. vm_compute in Hin.
    destruct Hin as [<-|[<-|[]]]; reflexivity. }
  split; [exact Hb|].
  refine (@empty_wordlist_fails_at_first_draw latin1 example_fs
            example_entropy (example_args "blank.txt" 2 None false)
            (lit "plain") PLAIN (lit "blank.txt") (nl ++ lit "  " ++ nl)
            eq_refl eq_refl eq_refl eq_refl _ eq_refl Hb).
  cbn. lia.
Defined.

(** C8, as stated, fails, in two ways.  A run whose wordlist is
    rejected writes no line to the primary output, and, when it is not
    quiet, no pick line and no empty line to the diagnostic stream.
    And a run that succeeds with the line feed as its join character,
    which has length one and is accepted, writes as many lines to the
    primary output as it picks words: two here, not one. *)
Lemma failed_run_prints_no_passphrase :
  let p := lit "bad.txt" in
  let failed :=
    (mkWorld [] [] [Opened p; Closed p] 0,
     Raise (InvalidWordlist (lit "Not a valid line") 2 p PLAIN)) in
  let q := lit "words.txt" in
  let two_lines :=
    mkWorld (lit "beta" ++ nl ++ lit "alpha" ++ nl) [] [Opened q; Closed q] 2
  in
  run example_fs example_entropy (example_args "bad.txt" 2 None true) = failed
  /\ run example_fs example_entropy (example_args "bad.txt" 2 None false)
     = failed
  /\ ~ (forall fs entropy a w r,
          run fs entropy a = (w, r) ->
          exists line, stdout w = line ++ [10%N])
  /\ run example_fs example_entropy (example_args "words.txt" 2 (Some nl) true)
     = (two_lines, Ok tt)
  /\ count_char 10 (stdout two_lines) = 2
  /\ ~ (forall fs entropy a w,
          run fs entropy a = (w, Ok tt) -> count_char 10 (stdout w) = 1).
Proof.
  cbv zeta. split; [reflexivity|]. split; [reflexivity|]. split.
  - intros H.
    destruct (H example_fs example_entropy
                (example_args "bad.txt" 2 None true) _ _ eq_refl)
      as [line Hl].
    cbn [stdout] in Hl. destruct line; discriminate Hl.
  - split; [reflexivity|]. split; [reflexivity|].
    intros H.
    specialize (H example_fs example_entropy
                  (example_args "words.txt" 2 (Some nl) true) _ eq_refl).
    discriminate H.
Qed.

Lemma run_streams_witness :
  let a := example_args "words.txt" 2 None false in
  let w :=
    mkWorld (lit "beta alpha" ++ nl)
      (lit "00 picked index 1: 'beta'" ++ nl
         ++ lit "01 picked index 0: 'alpha'" ++ nl ++ nl)
      [Opened (lit "words.txt"); Closed (lit "words.txt")] 2 in
  run example_fs example_entropy a = (w, Ok tt)
  /\ exists x xs c,
       parsed_wordlist example_fs a = Some (x :: xs)
       /\ convert_join_char (arg_join_char a) = [c]
       /\ let picks :=
            drawn example_entropy (x :: xs) x 0 (Z.to_nat (arg_count a)) in
          Z.of_nat (length picks) = arg_count a
          /\ stdout w = join [c] (map word picks) ++ [10%N]
          /\ (arg_quiet a = true -> stderr w = [])
          /\ (arg_quiet a = false -> stderr w = pick_trace 0 picks ++ [10%N])
          /\ (forall i pick,
                pick_line i pick
                = format_02 i ++ lit " picked index "
                    ++ str_of_nat (index pick) ++ lit ": '" ++ word pick
                    ++ lit "'"
                /\ 2 <= length (format_02 i))
          /\ (c <> 10%N -> count_char 10 (stdout w) = 1)
          /\ (c = 10%N -> count_char 10 (stdout w) = length picks)
          /\ (arg_quiet a = false ->
              count_char 10 (stderr w) = S (length picks))
          /\ (forall i pick,
                In pick picks -> count_char 10 (pick_line i pick) = 0).
Proof.
  cbv zeta. split; [reflexivity|].
  exact (@run_streams latin1 example_fs example_entropy
           (example_args "words.txt" 2 None false) _ eq_refl).
Defined.

(** * Further properties of the parser *)

Section ParserCoverage.
Context {U : UnicodeData}.

Lemma accepted_texts_length self lines :
  (forall l, In l lines -> ~ rejected self l) ->
  length (accepted_texts self lines) = length (remove_blank lines).
Proof.
  unfold remove_blank. induction lines as [|l rest IH]; intros Hok;
    [reflexivity|].
  assert (Hrest : forall l', In l' rest -> ~ rejected self l')
    by (intros l' Hin; apply Hok; right; exact Hin).
  cbn [accepted_texts filter].
  destruct (line_result self l) as [|w|reason|] eqn:E.
  - rewrite (proj1 (line_result_blank self l) E). cbn [negb]. auto.
  - assert (Hnb : is_blank l = false).
    { destruct (is_blank l) eqn:Eb; [|reflexivity].
      apply (proj2 (line_result_blank self l)) in Eb. congruence. }
    rewrite Hnb. cbn [negb length]. rewrite IH by exact Hrest. reflexivity.
  - exfalso. apply (Hok l); [left; reflexivity | exists reason; exact E].
  - exfalso. exact (line_result_bound _ _ E).
Qed.

(** X1: in either format, the words of a successful parse are the
    accepted texts in file order, one per non-blank line, and the word
    at position [i] has index [i]: indices are 0, 1, 2, ... without a
    gap or a repeat. *)
Theorem parse_indices_are_positions (self : WordlistFormat)
    (lines : list str) (p : path) (ws : list Word) :
  parse self lines p = Ok ws ->
  map word ws = accepted_texts self lines
  /\ length ws = length (remove_blank lines)
  /\ map index ws = seq 0 (length ws)
  /\ forall i w, nth_error ws i = Some w -> index w = i.
Proof.
  unfold parse. intros H.
  destruct (first_rejected_split self lines)
    as [Hok | (before & line & reason & after & -> & Hb & Hr)].
  - rewrite parse_lines_accepts in H by exact Hok.
    inversion H; subst; clear H. cbn [app length].
    rewrite number_from_word, number_from_index, number_from_length.
    split; [reflexivity|]. split; [apply accepted_texts_length, Hok|].
    split; [reflexivity|].
    intros i w Hn. apply number_from_nth in Hn. exact Hn.
  - rewrite (parse_lines_first_rejected p before line after Hb Hr) in H.
    discriminate.
Qed.

(** X2: [parse] fails in two ways only.  On the first line it
    rejects it raises [InvalidWordlist], which names the path and the
    format it was given and the 1-based number of that line, a line
    the file yielded, with the reason [Not a valid line] or [Invalid
    word] followed by the [repr] of the captured word.  Otherwise it
    lets through the exception the file raises while it is read (a
    [UnicodeDecodeError] for bytes that do not decode), and then no
    line yielded before was rejected.  The assertions of [parse] and of
    [InvalidWordlist], and the [ValueError] of [Word], are never raised:
    on a file that is read to its end without an exception, a failure
    of [parse] is an [InvalidWordlist]. *)
Theorem parse_fails_on_rejected_line_or_read_error (self : WordlistFormat)
    (file : stream) (p : path) (e : Exn) :
  parse_stream self file p = Raise e ->
  ((exists before line after reason,
      yielded file = before ++ line :: after
      /\ (forall l, In l before -> ~ rejected self l)
      /\ line_result self line = Rejected reason
      /\ e = InvalidWordlist reason (S (length before)) p self
      /\ 1 <= S (length before) <= length (yielded file)
      /\ (reason = lit "Not a valid line"
          \/ exists w, reason = lit "Invalid word " ++ repr w))
   \/ ((forall l, In l (yielded file) -> ~ rejected self l)
       /\ ending file = Some e))
  /\ (ending file = None ->
      parse self (yielded file) p = Raise e
      /\ exists reason n, e = InvalidWordlist reason n p self).
Proof.
  unfold parse_stream, parse. intros H.
  destruct (first_rejected_split self (yielded file))
    as [Hok | (before & line & reason & after & Hsplit & Hb & Hr)].
  - rewrite parse_lines_accepts in H |- * by exact Hok.
    destruct (ending file) as [e'|]; [|discriminate].
    inversion H; subst; clear H.
    split; [right; split; [exact Hok | reflexivity] | discriminate].
  - rewrite Hsplit in H |- *.
    rewrite (parse_lines_first_rejected p before line after Hb Hr) in H |- *.
    rewrite InvalidWordlist_new_pos in H |- * by lia.
    inversion H; subst; clear H.
    split; [left | intros _; split; [reflexivity | eauto]].
    exists before, line, after, reason.
    split; [reflexivity|]. split; [exact Hb|]. split; [exact Hr|].
    split; [reflexivity|]. split.
    + rewrite length_app. cbn [length]. lia.
    + unfold line_result in Hr.
      destruct (strip line) as [|c s]; [discriminate|].
      destruct (fullmatch (_line_pattern self) (c :: s)) as [m|].
      * destruct (group m "word") as [w|]; [|discriminate].
        destruct (fullmatch VALID_WORD_PATTERN w); [discriminate|].
        inversion Hr. right. exists w. reflexivity.
      * inversion Hr. left. reflexivity.
Qed.

Lemma parse_lines_app self p a b :
  forall n acc,
    parse_lines self p (a ++ b) n acc
    = match parse_lines self p a n acc with
      | Ok ws => parse_lines self p b (n + length a) ws
      | Raise e => Raise e
      end.
Proof.
  induction a as [|l rest IH]; intros n acc.
  - cbn [app length parse_lines]. rewrite Nat.add_0_r. reflexivity.
  - cbn [app length]. rewrite !parse_lines_step.
    replace (n + S (length rest)) with (S n + length rest) by lia.
    destruct (line_result self l); try reflexivity; apply IH.
Qed.

Lemma parse_lines_extends self p lines n acc ws :
  parse_lines self p lines n acc = Ok ws -> exists more, ws = acc ++ more.
Proof.
  intros H.
  destruct (first_rejected_split self lines)
    as [Hok | (before & line & reason & after & -> & Hb & Hr)].
  - rewrite parse_lines_accepts in H by exact Hok.
    inversion H; subst. eauto.
  - rewrite (parse_lines_first_rejected p before line after Hb Hr) in H.
    discriminate.
Qed.

(** X3: lines added at the end of a file do not touch what comes
    before them: when the file alone fails, the longer file fails with
    the same error, and when both parse, the words of the file, with
    their indices, are the first words of the longer file. *)
Theorem parse_app (self : WordlistFormat) (a b : list str) (p : path) :
  (forall e, parse self a p = Raise e -> parse self (a ++ b) p = Raise e)
  /\ (forall ws ws',
        parse self a p = Ok ws -> parse self (a ++ b) p = Ok ws' ->
        exists more, ws' = ws ++ more)
  /\ (forall ws,
        parse self a p = Ok ws ->
        parse self (a ++ b) p = parse_lines self p b (1 + length a) ws).
Proof.
  unfold parse. repeat split.
  - intros e H. rewrite parse_lines_app, H. reflexivity.
  - intros ws ws' H H'. rewrite parse_lines_app, H in H'.
    exact (parse_lines_extends _ _ _ _ _ H').
  - intros ws H. rewrite parse_lines_app, H. reflexivity.
Qed.

End ParserCoverage.

Section PatternCoverage.
Context {U : UnicodeData}.

(** The first attempt of a greedy repetition is its longest run. *)
Lemma rstar_greedy cs s g k m :
  k (skip cs s) g = Some m -> rstar cs s g k = Some m.
Proof.
  induction s as [|c s IH]; cbn [skip rstar]; [auto|].
  destruct (cs_mem cs c); [|auto].
  intros H. rewrite (IH H). reflexivity.
Qed.

(** A repetition fails when the continuation fails after every run. *)
Lemma rstar_fail cs s g k :
  (forall pre suf,
     s = pre ++ suf -> forallb (cs_mem cs) pre = true -> k suf g = None) ->
  rstar cs s g k = None.
Proof.
  induction s as [|c s IH]; intros H; cbn [rstar].
  - apply (H [] []); reflexivity.
  - destruct (cs_mem cs c) eqn:Ec.
    + rewrite IH; [apply (H [] (c :: s)); reflexivity|].
      intros pre suf -> Hpre. apply (H (c :: pre) suf); [reflexivity|].
      cbn [forallb]. rewrite Ec, Hpre. reflexivity.
    + apply (H [] (c :: s)); reflexivity.
Qed.

Lemma skip_app_all cs pre s :
  forallb (cs_mem cs) pre = true -> skip cs (pre ++ s) = skip cs s.
Proof.
  induction pre as [|c pre IH]; cbn [forallb app skip]; [reflexivity|].
  intros H. apply andb_true_iff in H as [Hc Hp]. rewrite Hc. apply IH, Hp.
Qed.

Lemma skip_all cs s : forallb (cs_mem cs) s = true -> skip cs s = [].
Proof.
  intros H. rewrite <- (app_nil_r s), skip_app_all by exact H. reflexivity.
Qed.

Lemma skip_keeps cs (f : char -> bool) s :
  forallb f s = true -> forallb f (skip cs s) = true.
Proof.
  induction s as [|c s IH]; cbn [skip]; [auto|].
  destruct (cs_mem cs c); [|auto].
  cbn [forallb]. intros H. apply andb_true_iff in H as [_ H]. auto.
Qed.

Lemma skip_space_none s :
  forallb (cs_mem CsNotSpace) s = true -> skip CsSpace s = s.
Proof.
  destruct s as [|c s]; [reflexivity|]. cbn [forallb skip cs_mem].
  intros H. apply andb_true_iff in H as [Hc _].
  destruct (isspace c); [discriminate | reflexivity].
Qed.

(** A string made of digits, then whitespace, then characters that are
    not whitespace has these last characters left once its digits and
    whitespace are passed over. *)
Lemma skip_three_runs ds sp w :
  digits_not_space ->
  forallb (cs_mem CsDigit) ds = true ->
  forallb (cs_mem CsSpace) sp = true ->
  forallb (cs_mem CsNotSpace) w = true ->
  forallb (cs_mem CsNotSpace) (skip CsSpace (skip CsDigit (ds ++ sp ++ w)))
  = true.
Proof.
  intros Hdn Hds Hsp Hw. rewrite skip_app_all by exact Hds.
  destruct sp as [|x sp].
  - cbn [app]. rewrite skip_space_none; apply skip_keeps; exact Hw.
  - cbn [forallb cs_mem] in Hsp. apply andb_true_iff in Hsp as [Hx Hsp].
    cbn [app skip cs_mem].
    destruct (isdecimal x) eqn:Ed;
      [apply Hdn in Ed; congruence|].
    change (x :: sp ++ w) with ((x :: sp) ++ w).
    rewrite skip_app_all by (cbn [forallb cs_mem]; rewrite Hx; exact Hsp).
    rewrite skip_space_none by exact Hw. exact Hw.
Qed.

(** X4: what the [dicelist-eff] pattern matches and captures, with its
    backtracking: a string fully matches exactly when it starts with a
    decimal digit and, once its leading digits and the whitespace after
    them are passed over, no whitespace is left; the captured word is
    what is left.  So digits at the start of a word written right after
    the number belong to the number, and a word after whitespace may
    start with a digit. *)
Theorem dicelist_fullmatch (s : str) :
  digits_not_space ->
  fullmatch (_line_pattern DICELIST_EFF) s
  = match dicelist_word s with
    | Some w => Some [("word"%string, w)]
    | None => None
    end.
Proof.
  intros Hdn. unfold fullmatch, dicelist_word. cbn [_line_pattern rmatch].
  destruct s as [|c r]; [reflexivity|].
  change (cs_mem CsDigit c) with (isdecimal c).
  destruct (isdecimal c); [|reflexivity]. cbv zeta.
  destruct (forallb (cs_mem CsNotSpace) (skip CsSpace (skip CsDigit r)))
    eqn:E.
  - do 3 apply rstar_greedy. rewrite (skip_all _ _ E).
    cbn [at_end length]. rewrite Nat.sub_0_r, firstn_all. reflexivity.
  - apply rstar_fail. intros ds s1 -> Hds.
    apply rstar_fail. intros sp s2 -> Hsp.
    apply rstar_fail. intros w s3 -> Hw.
    destruct s3 as [|x s3]; [|reflexivity].
    rewrite app_nil_r in E.
    rewrite (skip_three_runs _ _ _ Hdn Hds Hsp Hw) in E. discriminate.
Qed.

End PatternCoverage.

Lemma latin1_digits_not_space : digits_not_space.
Proof.
  intros c. unfold isdecimal, isspace, is_ascii, in_range. cbn.
  destruct (N.ltb_spec c 128); [|discriminate].
  rewrite andb_true_iff, !N.leb_le. intros [H1 H2].
  apply orb_false_iff. split; apply andb_false_iff; right;
    apply N.leb_gt; lia.
Qed.

Lemma dicelist_fullmatch_witness :
  fullmatch (_line_pattern DICELIST_EFF) (lit "11112 2nd")
  = Some [("word"%string, lit "2nd")]
  /\ fullmatch (_line_pattern DICELIST_EFF) (lit "111122nd")
     = Some [("word"%string, lit "nd")]
  /\ fullmatch (_line_pattern DICELIST_EFF) (lit "11112 two words") = None.
Proof.
  rewrite !(dicelist_fullmatch _ latin1_digits_not_space).
  repeat split; reflexivity.
Defined.

Section WhitespaceCoverage.
Context {U : UnicodeData}.

Lemma lstrip_all_space s : forallb isspace s = true -> lstrip s = [].
Proof.
  induction s as [|c s IH]; cbn [forallb lstrip]; [reflexivity|].
  intros H. apply andb_true_iff in H as [Hc Hs]. rewrite Hc. auto.
Qed.

Lemma lstrip_app_space a s :
  forallb isspace a = true -> lstrip (a ++ s) = lstrip s.
Proof.
  induction a as [|c a IH]; cbn [forallb app lstrip]; [reflexivity|].
  intros H. apply andb_true_iff in H as [Hc Ha]. rewrite Hc. auto.
Qed.

Lemma lstrip_app s b :
  lstrip (s ++ b) = if forallb isspace s then lstrip b else lstrip s ++ b.
Proof.
  induction s as [|c s IH]; cbn [forallb app lstrip]; [reflexivity|].
  destruct (isspace c); cbn [andb]; [exact IH | reflexivity].
Qed.

Lemma forallb_rev_true (f : char -> bool) s :
  forallb f s = true -> forallb f (rev s) = true.
Proof.
  rewrite !forallb_forall. intros H x Hin. apply H, in_rev, Hin.
Qed.

Lemma rstrip_app_space s b :
  forallb isspace b = true -> rstrip (s ++ b) = rstrip s.
Proof.
  intros Hb. unfold rstrip. rewrite rev_app_distr.
  rewrite lstrip_app_space by (apply forallb_rev_true, Hb). reflexivity.
Qed.

(** Whitespace around a line is not seen by [strip]. *)
Lemma strip_padding line padded :
  padding_of line padded -> strip padded = strip line.
Proof.
  intros (a & b & Ha & Hb & ->). unfold strip.
  rewrite lstrip_app_space by exact Ha. rewrite lstrip_app.
  destruct (forallb isspace line) eqn:E.
  - rewrite (lstrip_all_space _ Hb), (lstrip_all_space _ E). reflexivity.
  - apply rstrip_app_space, Hb.
Qed.

(** X5: whitespace around the lines of a file, the line terminators
    among it, changes nothing for [parse]: a file whose lines are those
    of another one between runs of whitespace has the same outcome,
    words, indices and errors alike, in either format. *)
Theorem parse_ignores_padding (self : WordlistFormat)
    (lines padded : list str) (p : path) :
  Forall2 padding_of lines padded ->
  parse self padded p = parse self lines p.
Proof.
  unfold parse. generalize 1 at 1 2. generalize (@nil Word).
  intros acc n H. revert acc n.
  induction H as [|l l' rest rest' Hl _ IH]; intros acc n; [reflexivity|].
  rewrite !parse_lines_step.
  assert (Hr : line_result self l' = line_result self l)
    by (unfold line_result; rewrite (strip_padding Hl); reflexivity).
  rewrite Hr. destruct (line_result self l); try reflexivity; apply IH.
Qed.

End WhitespaceCoverage.

Lemma parse_ignores_padding_witness :
  let lines := [lit "alpha"; lit "beta"] in
  let padded := [lit "  alpha" ++ [13%N; 10%N]; [9%N] ++ lit "beta " ++ nl] in
  Forall2 padding_of lines padded
  /\ parse DICELIST_EFF padded (lit "words.txt")
     = parse DICELIST_EFF lines (lit "words.txt")
  /\ parse PLAIN padded (lit "words.txt")
     = Ok [mkWord (lit "alpha") 0; mkWord (lit "beta") 1].
Proof.
  cbv zeta.
  assert (H : Forall2 padding_of [lit "alpha"; lit "beta"]
                [lit "  alpha" ++ [13%N; 10%N]; [9%N] ++ lit "beta " ++ nl]).
  { constructor; [|constructor; [|constructor]].
    - exists (lit "  "), [13%N; 10%N]. repeat split; reflexivity.
    - exists [9%N], (lit " " ++ nl). repeat split; reflexivity. }
  split; [exact H|]. split.
  - exact (@parse_ignores_padding latin1 DICELIST_EFF _ _ (lit "words.txt") H).
  - rewrite (@parse_ignores_padding latin1 PLAIN _ _ (lit "words.txt") H).
    reflexivity.
Defined.

(** * Further properties of the formats and of [Word] *)



Section WordCoverage.
Context {U : UnicodeData}.

(** X7: the description of a [Word] that was constructed is the word
    [index], its index in decimal, a colon, and its text between single
    quotes, with no character of the text escaped. *)
Theorem describe_constructed_word (i : nat) (text : str) (w : Word) :
  Word_new i text = Ok w ->
  describe w
  = lit "index " ++ str_of_nat i ++ lit ": '" ++ text ++ lit "'".
Proof.
  unfold Word_new. rewrite fullmatch_VALID_WORD_PATTERN.
  destruct (valid_word text) eqn:E; [|discriminate].
  intros H; inversion H; subst; clear H.
  unfold describe. cbn [word index]. rewrite (repr_valid_word _ E).
  reflexivity.
Qed.

End WordCoverage.

Lemma describe_constructed_word_witness :
  Word_new 42 (lit "zoom") = Ok (mkWord (lit "zoom") 42)
  /\ describe (mkWord (lit "zoom") 42) = lit "index 42: 'zoom'".
Proof.
  split; [reflexivity|].
  exact (@describe_constructed_word latin1 42 (lit "zoom") _ eq_refl).
Defined.

(** * Further properties of the command *)

Section CommandCoverage.
Context {U : UnicodeData}.
Variable fs : filesystem.

(** What the conversions of click decide does not depend on the random
    source or on the quiet flag. *)
Lemma run_cases_uniform f p n j :
  (exists opt why, forall entropy q,
      run fs entropy (mkArgs f p n j q)
      = (initial_world, Raise (UsageError opt why)))
  \/ (exists name fmt file content,
        f = Some name /\ p = Some file
        /\ WordlistFormat_of_value name = Some fmt
        /\ fs file = Some (RegularFile true content)
        /\ (1 <= n)%Z
        /\ forall entropy q,
            run fs entropy (mkArgs f p n j q)
            = generate_passphrase fs entropy name file n q
                (convert_join_char j) initial_world)
  \/ (exists name fmt file decoded,
        f = Some name /\ p = Some file
        /\ WordlistFormat_of_value name = Some fmt
        /\ fs file = Some (UndecodableFile true decoded)
        /\ (1 <= n)%Z
        /\ forall entropy q,
            run fs entropy (mkArgs f p n j q)
            = generate_passphrase fs entropy name file n q
                (convert_join_char j) initial_world).
Proof.
  unfold run, command, bind, lift.
  unfold convert_wordlist_format, convert_wordlist, convert_count.
  cbn [arg_wordlist_format arg_wordlist arg_count arg_join_char arg_quiet].
  destruct f as [name|]; [|left; eauto].
  destruct (WordlistFormat_of_value name) as [fmt|] eqn:Ef; [|left; eauto].
  destruct p as [file|]; [|left; eauto].
  destruct (fs file) as [[|readable content|readable decoded]|] eqn:Efs;
    [left; eauto| | |left; eauto].
  - destruct readable; [|left; eauto].
    destruct (Z.leb_spec 1 n); [|left; eauto].
    right. left. exists name, fmt, file, content. repeat split; assumption.
  - destruct readable; [|left; eauto].
    destruct (Z.leb_spec 1 n); [|left; eauto].
    right. right. exists name, fmt, file, decoded. repeat split; assumption.
Qed.




End CommandCoverage.

Section CommandFrame.
Context {U : UnicodeData}.
Variable fs : filesystem.
Variable entropy : nat -> nat.

(** X10: the quiet flag changes nothing but the diagnostic stream: with
    the same options otherwise and the same random draws, the quiet run
    and the other one end alike, write the same text to the primary
    output, open and close the same file and make the same number of
    draws, and the quiet run writes nothing to the diagnostic stream. *)
Theorem quiet_only_affects_stderr (f : option str) (p : option path)
    (n : Z) (j : option str) :
  let quiet_run := run fs entropy (mkArgs f p n j true) in
  let other_run := run fs entropy (mkArgs f p n j false) in
  snd quiet_run = snd other_run
  /\ stdout (fst quiet_run) = stdout (fst other_run)
  /\ files (fst quiet_run) = files (fst other_run)
  /\ draws (fst quiet_run) = draws (fst other_run)
  /\ stderr (fst quiet_run) = [].
Proof.
  cbv zeta.
  destruct (run_cases_uniform fs f p n j)
    as [(opt & why & H) |
        [(name & fmt & file & content & -> & -> & Hf & Hfs & Hc & H) |
         (name & fmt & file & decoded & -> & -> & Hf & Hfs & Hc & H)]];
    rewrite !H; [repeat split| |].
  - rewrite !generate_passphrase_cases with (fmt := fmt) (content := content)
      by assumption.
    destruct (negb (length (convert_join_char j) =? 1)); [repeat split|].
    destruct (parse fmt (readlines content) file) as [[|x xs]|e];
      repeat split.
  - rewrite !generate_passphrase_undecodable
      with (fmt := fmt) (decoded := decoded) by assumption.
    destruct (negb (length (convert_join_char j) =? 1)); repeat split.
Qed.

(** X11: the wordlist file is closed on every path: a run either ends
    before it opens any file, with a usage error or the join-char
    error, or it has opened the file of [--wordlist] once and closed it
    again, whether parsing and sampling succeeded or not. *)
Theorem wordlist_file_closed (a : Args) (w : World) (r : outcome unit) :
  run fs entropy a = (w, r) ->
  (files w = []
   /\ exists e, r = Raise e
        /\ match e with
           | UsageError _ _ | ClickException _ => True
           | _ => False
           end)
  \/ (exists p, arg_wordlist a = Some p /\ files w = [Opened p; Closed p]).
Proof.
  intros Hrun.
  destruct (run_cases fs entropy a)
    as [(opt & why & H) |
        [(name & fmt & p & content & Hn & Hp & Hf & Hfs & Hc & H) |
         (name & fmt & p & decoded & Hn & Hp & Hf & Hfs & Hc & H)]];
    rewrite H in Hrun.
  - inversion Hrun; subst. left. split; [reflexivity|]. eexists.
    split; [reflexivity | exact I].
  - rewrite generate_passphrase_cases with (fmt := fmt) (content := content)
      in Hrun by assumption.
    destruct (negb (length (convert_join_char (arg_join_char a)) =? 1)).
    { inversion Hrun; subst. left. split; [reflexivity|]. eexists.
      split; [reflexivity | exact I]. }
    right. exists p. split; [exact Hp|].
    destruct (parse fmt (readlines content) p) as [[|x xs]|e];
      inversion Hrun; subst; reflexivity.
  - rewrite generate_passphrase_undecodable
      with (fmt := fmt) (decoded := decoded) in Hrun by assumption.
    destruct (negb (length (convert_join_char (arg_join_char a)) =? 1)).
    { inversion Hrun; subst. left. split; [reflexivity|]. eexists.
      split; [reflexivity | exact I]. }
    right. exists p. split; [exact Hp|].
    inversion Hrun; subst; reflexivity.
Qed.

End CommandFrame.

Section SamplingCoverage.
Context {U : UnicodeData}.
Variable fs : filesystem.




End SamplingCoverage.

(** * Examples of the further properties *)

Lemma parse_indices_are_positions_witness :
  let lines := [lit "11111 alpha" ++ nl; nl; lit "11112  beta" ++ nl] in
  let ws := [mkWord (lit "alpha") 0; mkWord (lit "beta") 1] in
  parse DICELIST_EFF lines (lit "dice.txt") = Ok ws
  /\ map word ws = accepted_texts DICELIST_EFF lines
  /\ length ws = length (remove_blank lines)
  /\ map index ws = seq 0 (length ws)
  /\ forall i w, nth_error ws i = Some w -> index w = i.
Proof.
  cbv zeta. split; [reflexivity|].
  exact (@parse_indices_are_positions latin1 DICELIST_EFF
           [lit "11111 alpha" ++ nl; nl; lit "11112  beta" ++ nl]
           (lit "dice.txt") _ eq_refl).
Defined.

Lemma parse_fails_on_rejected_line_or_read_error_witness :
  let lines := [lit "11111 alpha" ++ nl; lit "11112" ++ nl] in
  let p := lit "dice.txt" in
  let rejected_line := mkStream lines (Some UnicodeDecodeError) in
  let read_error := mkStream (firstn 1 lines) (Some UnicodeDecodeError) in
  parse_stream DICELIST_EFF rejected_line p
  = Raise (InvalidWordlist (lit "Invalid word ''") 2 p DICELIST_EFF)
  /\ parse_stream DICELIST_EFF read_error p = Raise UnicodeDecodeError
  /\ (exists before line after reason,
        lines = before ++ line :: after
        /\ (forall l, In l before -> ~ rejected DICELIST_EFF l)
        /\ line_result DICELIST_EFF line = Rejected reason
        /\ InvalidWordlist (lit "Invalid word ''") 2 p DICELIST_EFF
           = InvalidWordlist reason (S (length before)) p DICELIST_EFF
        /\ 1 <= S (length before) <= length lines
        /\ (reason = lit "Not a valid line"
            \/ exists w, reason = lit "Invalid word " ++ repr w))
  /\ (forall l, In l (firstn 1 lines) -> ~ rejected DICELIST_EFF l).
Proof.
  cbv zeta. split; [reflexivity|]. split; [reflexivity|]. split.
  - destruct (proj1 (@parse_fails_on_rejected_line_or_read_error latin1
                       DICELIST_EFF
                       (mkStream [lit "11111 alpha" ++ nl; lit "11112" ++ nl]
                          (Some UnicodeDecodeError))
                       (lit "dice.txt") _ eq_refl)) as [H|[_ H]];
      [exact H | discriminate H].
  - destruct (proj1 (@parse_fails_on_rejected_line_or_read_error latin1
                       DICELIST_EFF
                       (mkStream [lit "11111 alpha" ++ nl]
                          (Some UnicodeDecodeError))
                       (lit "dice.txt") _ eq_refl)) as [H|[H _]];
      [|exact H].
    destruct H as (before & line & after & reason & _ & _ & _ & H & _).
    discriminate H.
Defined.


Lemma wordlist_file_closed_witness :
  let a := example_args "words.txt" 1 None true in
  let p := lit "words.txt" in
  let w := mkWorld (lit "beta" ++ nl) [] [Opened p; Closed p] 1 in
  run example_fs example_entropy a = (w, Ok tt)
  /\ ((files w = []
       /\ exists e, Ok tt = Raise e
            /\ match e with
               | UsageError _ _ | ClickException _ => True
               | _ => False
               end)
      \/ (exists p', arg_wordlist a = Some p'
            /\ files w = [Opened p'; Closed p'])).
Proof.
  cbv zeta. split; [reflexivity|].
  exact (@wordlist_file_closed latin1 example_fs example_entropy
           (example_args "words.txt" 1 None true) _ _ eq_refl).
Defined.


(** * Dice lists *)

Section DiceListCoverage.
Context {U : UnicodeData}.

Lemma lstrip_head c s : isspace c = false -> lstrip (c :: s) = c :: s.
Proof. intros H. cbn [lstrip]. rewrite H. reflexivity. Qed.

(** A string that starts and ends with a character that is not
    whitespace is left as it is by [strip]. *)
Lemma strip_clean a s z :
  isspace a = false -> isspace z = false ->
  strip (a :: s ++ [z]) = a :: s ++ [z].
Proof.
  intros Ha Hz. unfold strip, rstrip. rewrite lstrip_head by exact Ha.
  change (a :: s ++ [z]) with ((a :: s) ++ [z]).
  rewrite rev_app_distr. cbn [rev app]. rewrite lstrip_head by exact Hz.
  change (z :: rev s ++ [a]) with (rev ([z]) ++ rev (a :: s)).
  rewrite <- rev_app_distr, rev_involutive. reflexivity.
Qed.

Lemma entry_text_shape e :
  digits_not_space -> word_chars_not_space -> well_formed_entry e ->
  exists a s z,
    entry_text e = a :: s ++ [z] /\ isspace a = false /\ isspace z = false.
Proof.
  intros Hdn Hwn (Hr & Hd & _ & _ & Hv). unfold entry_text.
  destruct (roll e) as [|a ds]; [congruence|].
  cbn [forallb] in Hd. apply andb_true_iff in Hd as [Ha _].
  apply valid_word_spec in Hv as [Hne Hall].
  destruct (exists_last Hne) as (w' & z & Hw). rewrite Hw in *.
  exists a, (ds ++ gap e ++ w'), z. split; [|split].
  - cbn [app]. rewrite <- !app_assoc. reflexivity.
  - apply Hdn, Ha.
  - apply Hwn. rewrite Forall_forall in Hall. apply Hall.
    apply in_or_app. right. left. reflexivity.
Qed.

Lemma entry_text_word e :
  digits_not_space -> word_chars_not_space -> well_formed_entry e ->
  dicelist_word (entry_text e) = Some (entry_word e).
Proof.
  intros Hdn Hwn (Hr & Hd & Hg & Hs & Hv). unfold entry_text, dicelist_word.
  destruct (roll e) as [|a ds]; [congruence|].
  cbn [forallb] in Hd. apply andb_true_iff in Hd as [Ha Hds].
  cbn [app]. rewrite Ha. cbv zeta.
  assert (Hw : forallb (cs_mem CsNotSpace) (entry_word e) = true).
  { apply valid_word_spec in Hv as [_ Hall]. apply forallb_forall.
    rewrite Forall_forall in Hall. intros c Hc. cbn [cs_mem].
    rewrite (Hwn c (Hall c Hc)). reflexivity. }
  rewrite skip_app_all by exact Hds.
  destruct (gap e) as [|x sp]; [congruence|].
  cbn [forallb] in Hs. apply andb_true_iff in Hs as [Hx Hsp].
  cbn [app skip cs_mem].
  destruct (isdecimal x) eqn:Ed; [apply Hdn in Ed; congruence|].
  cbn [skip cs_mem]. rewrite Hx.
  rewrite skip_app_all by exact Hsp.
  rewrite skip_space_none by exact Hw.
  change (forallb (fun c : char => negb (isspace c)) (entry_word e))
    with (forallb (cs_mem CsNotSpace) (entry_word e)).
  rewrite Hw. reflexivity.
Qed.

Lemma dicelist_fullmatch_entry e :
  digits_not_space -> word_chars_not_space -> well_formed_entry e ->
  fullmatch (_line_pattern DICELIST_EFF) (entry_text e)
  = Some [("word"%string, entry_word e)].
Proof.
  intros Hdn Hwn Hwf.
  pose proof (entry_text_word Hdn Hwn Hwf) as Hw.
  unfold fullmatch, dicelist_word in *. cbn [_line_pattern rmatch].
  destruct (entry_text e) as [|c r]; [discriminate|].
  change (cs_mem CsDigit c) with (isdecimal c).
  destruct (isdecimal c); [|discriminate]. cbv zeta in Hw.
  destruct (forallb (cs_mem CsNotSpace) (skip CsSpace (skip CsDigit r)))
    eqn:E; [|discriminate].
  inversion Hw as [Hrest].
  do 3 apply rstar_greedy. rewrite Hrest, (skip_all CsNotSpace).
  - cbn [at_end length]. rewrite Nat.sub_0_r, firstn_all. reflexivity.
  - rewrite <- Hrest. exact E.
Qed.

Lemma entry_line_accepted e line :
  digits_not_space -> word_chars_not_space -> well_formed_entry e ->
  padding_of (entry_text e) line ->
  line_result DICELIST_EFF line = Accepted (entry_word e).
Proof.
  intros Hdn Hwn Hwf Hpad. unfold line_result.
  rewrite (strip_padding Hpad).
  destruct (entry_text_shape Hdn Hwn Hwf) as (a & s & z & Ht & Ha & Hz).
  pose proof (dicelist_fullmatch_entry Hdn Hwn Hwf) as Hm.
  rewrite Ht in *. rewrite strip_clean by assumption. rewrite Hm.
  cbn [group]. rewrite String.eqb_refl, fullmatch_VALID_WORD_PATTERN.
  destruct Hwf as (_ & _ & _ & _ & Hv). rewrite Hv. reflexivity.
Qed.

(** X13: a dice list parses to its words: when every line of the file
    is an entry, a roll number of decimal digits, whitespace, and a
    word of word characters and hyphens, with any whitespace around it,
    [parse] under [dicelist-eff] returns the words of the entries in
    file order; the roll numbers are dropped, and the index of a word
    is its position in the file, not its roll number. *)
Theorem parse_dice_entries (entries : list dice_entry) (lines : list str)
    (p : path) :
  digits_not_space -> word_chars_not_space ->
  Forall well_formed_entry entries ->
  Forall2 (fun e line => padding_of (entry_text e) line) entries lines ->
  parse DICELIST_EFF lines p
  = Ok (number_from 0 (map entry_word entries)).
Proof.
  intros Hdn Hwn Hwf Hlines. unfold parse.
  change (number_from 0 (map entry_word entries))
    with ([] ++ number_from (length (@nil Word)) (map entry_word entries)).
  generalize 1. generalize (@nil Word). revert Hwf.
  induction Hlines as [|e line entries lines Hpad _ IH];
    intros Hwf acc n.
  - cbn. rewrite app_nil_r. reflexivity.
  - inversion Hwf as [|? ? He Hrest]; subst.
    rewrite parse_lines_step, (entry_line_accepted Hdn Hwn He Hpad).
    rewrite (IH Hrest). cbn [map number_from].
    rewrite length_app, <- app_assoc. cbn [length app].
    rewrite Nat.add_1_r. reflexivity.
Qed.

End DiceListCoverage.

Lemma latin1_word_chars_not_space : word_chars_not_space.
Proof.
  intros c H. apply word_char_cases in H.
  unfold isspace, is_ascii, in_range.
  destruct H as [[Hlt H]|[Hge H]].
  - destruct (N.ltb_spec c 128); [|lia].
    apply orb_false_iff. split; apply andb_false_iff.
    + destruct (N.leb_spec c 13); [left; apply N.leb_gt; lia | right; reflexivity].
    + destruct (N.leb_spec c 32); [left; apply N.leb_gt; lia | right; reflexivity].
  - destruct (N.ltb_spec c 128); [lia|].
    cbn in *. unfold latin1_isalnum, latin1_isspace, in_range, char_eqb in *.
    rewrite !orb_true_iff, !andb_true_iff, !N.eqb_eq, !N.leb_le in H.
    apply orb_false_iff. split; apply N.eqb_neq; lia.
Qed.

Lemma parse_dice_entries_witness :
  let entries :=
    [mkEntry (lit "11111") [9%N] (lit "abacus");
     mkEntry (lit "11112") (lit "  ") (lit "2nd-hand")] in
  let lines :=
    [lit "11111" ++ [9%N] ++ lit "abacus" ++ nl;
     lit " 11112  2nd-hand" ++ [13%N; 10%N]] in
  Forall well_formed_entry entries
  /\ Forall2 (fun e line => padding_of (entry_text e) line) entries lines
  /\ parse DICELIST_EFF lines (lit "dice.txt")
     = Ok [mkWord (lit "abacus") 0; mkWord (lit "2nd-hand") 1].
Proof.
  cbv zeta.
  assert (Hwf : Forall well_formed_entry
                  [mkEntry (lit "11111") [9%N] (lit "abacus");
                   mkEntry (lit "11112") (lit "  ") (lit "2nd-hand")])
    by (repeat constructor; discriminate).
  assert (Hl : Forall2 (fun e line => padding_of (entry_text e) line)
                 [mkEntry (lit "11111") [9%N] (lit "abacus");
                  mkEntry (lit "11112") (lit "  ") (lit "2nd-hand")]
                 [lit "11111" ++ [9%N] ++ lit "abacus" ++ nl;
                  lit " 11112  2nd-hand" ++ [13%N; 10%N]]).
  { constructor; [|constructor; [|constructor]].
    - exists [], nl. repeat split; reflexivity.
    - exists (lit " "), [13%N; 10%N]. repeat split; reflexivity. }
  split; [exact Hwf|]. split; [exact Hl|].
  exact (@parse_dice_entries latin1 _ _ (lit "dice.txt")
           latin1_digits_not_space latin1_word_chars_not_space Hwf Hl).
Defined.
